(** * Hookmark MCP server: a shallow embedding of [src/index.ts]

    The server translates validated tool calls into invocations of the
    external [hook] binary through a shell command line, and reshapes
    what the binary printed into a response envelope.

    Layout: JavaScript strings, the helpers ([shellEscape], [runHook],
    [errorResponse], [extractHookUrl]), the seven tool handlers and
    their input schemas, then the properties. *)

From Stdlib Require Import String Ascii List NArith ZArith Bool Lia.
Import ListNotations.

(** ** JavaScript strings *)

(** A JavaScript string is a sequence of UTF-16 code units.  [trim] and
    the regular expression class [\s] are defined on code units, so a
    string is modelled as the list of its code units. *)
Module Js.

Definition char := N.
Definition str := list char.

(** A source literal (all literals of [index.ts] that matter here are
    ASCII). *)
Definition lit (s : string) : str :=
  map N_of_ascii (list_ascii_of_string s).

Definition char_eqb (a b : char) : bool := N.eqb a b.

Fixpoint eqb (a b : str) : bool :=
  match a, b with
  | [], [] => true
  | x :: a', y :: b' => char_eqb x y && eqb a' b'
  | _, _ => false
  end.

(** ECMAScript WhiteSpace and LineTerminator code points: what
    [String.prototype.trim] strips and what [\s] matches. *)
Definition is_ws (c : char) : bool :=
  ((9 <=? c) && (c <=? 13)              (* TAB LF VT FF CR *)
   || (c =? 32)                         (* SPACE *)
   || (c =? 160)                        (* NO-BREAK SPACE *)
   || (c =? 5760)                       (* U+1680 *)
   || ((8192 <=? c) && (c <=? 8202))    (* U+2000 .. U+200A *)
   || (c =? 8232) || (c =? 8233)        (* U+2028 U+2029 *)
   || (c =? 8239) || (c =? 8287)        (* U+202F U+205F *)
   || (c =? 12288)                      (* U+3000 *)
   || (c =? 65279))%N.                  (* U+FEFF *)

Fixpoint dropWhile (p : char -> bool) (s : str) : str :=
  match s with
  | [] => []
  | c :: t => if p c then dropWhile p t else s
  end.

Fixpoint takeWhile (p : char -> bool) (s : str) : str :=
  match s with
  | [] => []
  | c :: t => if p c then c :: takeWhile p t else []
  end.

Definition trimStart (s : str) : str := dropWhile is_ws s.
Definition trimEnd (s : str) : str := rev (dropWhile is_ws (rev s)).

(** [s.trim()] *)
Definition trim (s : str) : str := trimEnd (trimStart s).

(** Truthiness of a string value: only the empty string is falsy. *)
Definition truthy (s : str) : bool :=
  match s with [] => false | _ :: _ => true end.

(** [a || b] on strings. *)
Definition or_else (a b : str) : str := if truthy a then a else b.

(** [xs.join(sep)] *)
Fixpoint join (sep : str) (xs : list str) : str :=
  match xs with
  | [] => []
  | [x] => x
  | x :: rest => x ++ sep ++ join sep rest
  end.

(** [s.replace(/c/g, by)] for a one-character pattern [c] and a
    replacement text without [$] patterns. *)
Fixpoint replace_all (c : char) (by_ : str) (s : str) : str :=
  match s with
  | [] => []
  | x :: t => (if char_eqb x c then by_ else [x]) ++ replace_all c by_ t
  end.

(** [pre] followed by something is [s]: strips the literal [pre]. *)
Fixpoint strip_prefix (pre s : str) : option str :=
  match pre, s with
  | [], _ => Some s
  | p :: pre', c :: s' => if char_eqb p c then strip_prefix pre' s' else None
  | _ :: _, [] => None
  end.

(** [u] occurs in [s] at offset [i]. *)
Definition occurs_at (i : nat) (u s : str) : Prop :=
  exists pre post, s = pre ++ u ++ post /\ length pre = i.

(** [s.includes(u)], as a proposition. *)
Definition includes (s u : str) : Prop := exists i, occurs_at i u s.

End Js.

Import Js.

Definition SQUOTE : char := 39%N.
Definition DQUOTE : char := 34%N.
Definition BACKSLASH : char := 92%N.
Definition SPACE : char := 32%N.
Definition TAB : char := 9%N.

(** ** [shellEscape] *)

(** [`'${s.replace(/'/g, "'\\''")}'`] *)
Definition shellEscape (s : str) : str :=
  lit "'" ++ replace_all SQUOTE (lit "'\''") s ++ lit "'".

(** ** The word-level grammar of the POSIX shell

    The command line built by [runHook] is handed to [/bin/sh -c].
    What the shell makes of it is modelled after the Shell Command
    Language, 2.2 Quoting and 2.3 Token Recognition, restricted to
    simple commands: blanks separate words; a backslash outside quotes
    keeps the next character; single quotes keep everything up to the
    next single quote; inside double quotes a backslash escapes only
    [$], the backquote, the double quote and itself.  Anything that
    would call for expansion, globbing, an operator or a comment
    makes the model give up ([None]).  Characters are the code units of
    the command string; the encoding of the command line changes none
    of the ASCII characters the grammar looks at. *)
Module Sh.

Inductive mode :=
| Unq     (* outside quotes *)
| Esc     (* just after a backslash outside quotes *)
| SQ      (* inside single quotes *)
| DQ      (* inside double quotes *)
| DEsc.   (* just after a backslash inside double quotes *)

Definition is_blank (c : char) : bool := (c =? 32)%N || (c =? 9)%N.

(** Characters the shell treats specially outside quotes, other than
    blanks, quotes and the backslash. *)
Definition is_special (c : char) : bool :=
  existsb (N.eqb c)
    (10 :: map N_of_ascii
       (list_ascii_of_string "|&;<>()$`*?[]#~=%!{}"))%N.

(** Characters that stay special inside double quotes. *)
Definition dq_special (c : char) : bool := (c =? 36)%N || (c =? 96)%N.

Definition push (c : char) (cur : option str) : option str :=
  Some (match cur with Some w => w ++ [c] | None => [c] end).

Definition start (cur : option str) : option str :=
  Some (match cur with Some w => w | None => [] end).

Definition flush (cur : option str) (acc : list str) : list str :=
  match cur with Some w => acc ++ [w] | None => acc end.

(** [cur] is the word under construction, if any; [acc] the words
    already delimited. *)
Fixpoint lex (m : mode) (cur : option str) (acc : list str) (s : str)
  : option (list str) :=
  match s with
  | [] =>
      match m with
      | Unq => Some (flush cur acc)
      | _ => None
      end
  | c :: t =>
      match m with
      | Unq =>
          if is_blank c then lex Unq None (flush cur acc) t
          else if (c =? 39)%N then lex SQ (start cur) acc t
          else if (c =? 34)%N then lex DQ (start cur) acc t
          else if (c =? 92)%N then lex Esc cur acc t
          else if is_special c then None
          else lex Unq (push c cur) acc t
      | Esc =>
          if (c =? 10)%N then lex Unq cur acc t
          else lex Unq (push c cur) acc t
      | SQ =>
          if (c =? 39)%N then lex Unq cur acc t
          else lex SQ (push c cur) acc t
      | DQ =>
          if (c =? 34)%N then lex Unq cur acc t
          else if (c =? 92)%N then lex DEsc cur acc t
          else if dq_special c then None
          else lex DQ (push c cur) acc t
      | DEsc =>
          if (c =? 10)%N then lex DQ cur acc t
          else if dq_special c || (c =? 34)%N || (c =? 92)%N
               then lex DQ (push c cur) acc t
          else lex DQ (push c (push 92%N cur)) acc t
      end
  end.

(** The fields of a simple command. *)
Definition words (s : str) : option (list str) := lex Unq None [] s.

End Sh.

(** ** Values thrown, process outcomes and the effect monad *)

(** What a [catch] clause of [index.ts] can receive.  [child_process]
    reports a non-zero exit status or an elapsed timeout by throwing an
    [Error] that carries the captured streams as properties; with
    [encoding: "utf-8"] they are strings. *)
Inductive thrown :=
| ExecError (stderr stdout message : str)  (* an Error with a [stderr] property *)
| PlainError (message : str)               (* an Error without one *)
| NonError (shown : str).                  (* any other value; [String(err)] is [shown] *)

Inductive stdio_cfg := StdioIgnore | StdioPipe | StdioInherit.

Record exec_options := ExecOptions {
  encoding : string;
  stdio : list stdio_cfg;       (* stdin, stdout, stderr *)
  timeout : N                   (* milliseconds *)
}.

(** [execSync] returns what the child wrote on standard output when it
    exits with status zero, and throws otherwise.  It checks its
    arguments first: a command it does not accept (one that holds a
    NUL character) makes it throw a [TypeError], which has no [stderr]
    property, before any process is started. *)
Inductive exec_outcome :=
| Exited0 (stdout : str)
| Raised (e : thrown)
| Refused (message : str).

(** One entry per child process started. *)
Record spawn := Spawn { spawn_cmd : str; spawn_options : exec_options }.

Definition trace := list spawn.

Inductive result (A : Type) :=
| Ok (a : A)
| Throw (e : thrown).

Arguments Ok {A} a.
Arguments Throw {A} e.

(** Computations that may spawn processes and may throw. *)
Definition Eff (A : Type) : Type := trace -> result A * trace.

Definition ret {A} (a : A) : Eff A := fun tr => (Ok a, tr).

Definition throw {A} (e : thrown) : Eff A := fun tr => (Throw e, tr).

Definition bind {A B} (m : Eff A) (k : A -> Eff B) : Eff B :=
  fun tr =>
    match m tr with
    | (Ok a, tr') => k a tr'
    | (Throw e, tr') => (Throw e, tr')
    end.

(** [try { m } catch (err) { h err }] *)
Definition try_catch {A} (m : Eff A) (h : thrown -> Eff A) : Eff A :=
  fun tr =>
    match m tr with
    | (Ok a, tr') => (Ok a, tr')
    | (Throw e, tr') => h e tr'
    end.

Notation "x <- m ;; k" := (bind m (fun x => k))
  (at level 61, m at next level, right associativity).

(** ** Response envelopes *)

Inductive content_item := Text (text : str).

Record response := Response {
  content : list content_item;
  isError : option bool         (* [None]: the property is absent *)
}.

Definition textResponse (t : str) : response := Response [Text t] None.

(** [err instanceof Error ? err.message : String(err)] *)
Definition error_message (err : thrown) : str :=
  match err with
  | ExecError _ _ message => message
  | PlainError message => message
  | NonError shown => shown
  end.

Definition errorResponse (err : thrown) : response :=
  let msg := error_message err in
  Response [Text (lit "Error: " ++ msg)] (Some true).

(** ** [extractHookUrl] *)

(** The negated class of the pattern: anything but white space, the
    single quote and the double quote. *)
Definition url_char (c : char) : bool :=
  negb (is_ws c || (c =? 39)%N || (c =? 34)%N).

(** An attempt of the pattern (the literal [hook://], then one or more
    characters of the class) at the start of [s]: the quantifier is
    greedy and nothing follows it, so it takes the longest run and no
    backtracking shortens it. *)
Definition match_here (s : str) : option str :=
  match strip_prefix (lit "hook://") s with
  | Some rest =>
      match takeWhile url_char rest with
      | [] => None
      | body => Some (lit "hook://" ++ body)
      end
  | None => None
  end.

(** [text.match(re)] without the [g] flag: the attempt is made at each
    index from 0 upwards and the first success is the match. *)
Fixpoint regex_match (s : str) : option str :=
  match match_here s with
  | Some m => Some m
  | None =>
      match s with
      | [] => None
      | _ :: t => regex_match t
      end
  end.

(** [match ? match[0] : null] *)
Definition extractHookUrl (text : str) : option str := regex_match text.

(** Truthiness of a [string | null] or [string | undefined]. *)
Definition truthy_opt (v : option str) : bool :=
  match v with Some s => truthy s | None => false end.

(** ** Tool parameters *)

Module Format.
Inductive t := paths | hooks | markdown | verbose.

Definition to_str (f : t) : str :=
  match f with
  | paths => lit "paths"
  | hooks => lit "hooks"
  | markdown => lit "markdown"
  | verbose => lit "verbose"
  end.

Definition all : list t := [paths; hooks; markdown; verbose].

(** The member of the enumeration spelled [s], if any. *)
Definition of_str (s : str) : option t :=
  find (fun f => Js.eqb (to_str f) s) all.
End Format.

(** ** The command invoker and the handlers *)

Section Server.

(** [process.env.HOOK_CLI] *)
Variable env_HOOK_CLI : option str.

(** The operating system: what running a command line with given
    options results in. *)
Variable os : str -> exec_options -> exec_outcome.

Definition HOOK_CLI : str :=
  match env_HOOK_CLI with
  | Some p => p
  | None => lit "/opt/homebrew/lib/ruby/gems/4.0.0/bin/hook"
  end.

Definition execSync (cmd : str) (options : exec_options) : Eff str :=
  fun tr =>
    match os cmd options with
    | Exited0 out => (Ok out, tr ++ [Spawn cmd options])
    | Raised e => (Throw e, tr ++ [Spawn cmd options])
    | Refused message => (Throw (PlainError message), tr)
    end.

Definition runHook_options : exec_options :=
  ExecOptions "utf-8" [StdioIgnore; StdioPipe; StdioPipe] 30000.

(** [[HOOK_CLI, ...args].map((a) => shellEscape(a)).join(" ")] *)
Definition command_line (args : list str) : str :=
  join (lit " ") (map shellEscape (HOOK_CLI :: args)).

(** [`${args[0]}`] *)
Definition arg0 (args : list str) : str :=
  match args with
  | a :: _ => a
  | [] => lit "undefined"
  end.

Definition runHook (args : list str) : Eff str :=
  let cmd := command_line args in
  try_catch
    (output <- execSync cmd runHook_options ;;
     ret (trim output))
    (fun err =>
       match err with
       | ExecError stderr _ message =>
           let detail := trim (or_else stderr (or_else message [])) in
           throw (PlainError
                    (or_else detail (lit "hook " ++ arg0 args ++ lit " failed")))
       | _ => throw err
       end).

(** The [catch (err) { return errorResponse(err); }] shared by the
    seven handlers. *)
Definition catching (body : Eff response) : Eff response :=
  try_catch body (fun err => ret (errorResponse err)).

(** *** hookmark_link *)

Definition link_args (item : str) : list str := [lit "clip"; item].

Definition hookmark_link (item : str) : Eff response :=
  catching
    (output <- runHook (link_args item) ;;
     let hookUrl := extractHookUrl output in
     if truthy_opt hookUrl
     then ret (textResponse (match hookUrl with Some u => u | None => [] end))
     else ret (textResponse
                 (or_else output
                    (lit "Hookmark URL for '" ++ item ++
                     lit "' copied to clipboard. Paste to retrieve the URL.")))).

(** *** hookmark_connect *)

Definition connect_args (item_a item_b : str) : list str :=
  [lit "link"; item_a; item_b].

Definition hookmark_connect (item_a item_b : str) : Eff response :=
  catching
    (output <- runHook (connect_args item_a item_b) ;;
     ret (textResponse
            (or_else output
               (lit "Hook created between '" ++ item_a ++ lit "' and '" ++
                item_b ++ lit "'.")))).

(** *** hookmark_list *)

Definition list_args (item : option str) (format : Format.t)
    (files_only : bool) : list str :=
  let args := [lit "list"; lit "-o"; Format.to_str format] in
  let args := if files_only then args ++ [lit "--files_only"] else args in
  match item with
  | Some i => if truthy i then args ++ [i] else args
  | None => args
  end.

Definition hookmark_list (item : option str) (format : Format.t)
    (files_only : bool) : Eff response :=
  catching
    (output <- runHook (list_args item format files_only) ;;
     if negb (truthy output)
     then ret (textResponse
                 (match item with
                  | Some i =>
                      if truthy i
                      then lit "No hooks found for '" ++ i ++ lit "'."
                      else lit "No Hookmark bookmarks found."
                  | None => lit "No Hookmark bookmarks found."
                  end))
     else ret (textResponse output)).

(** *** hookmark_search *)

Definition search_args (query : str) (format : Format.t)
    (names_only files_only : bool) : list str :=
  let args := [lit "find"; lit "-o"; Format.to_str format] in
  let args := if names_only then args ++ [lit "--names_only"] else args in
  let args := if files_only then args ++ [lit "--files_only"] else args in
  args ++ [query].

Definition hookmark_search (query : str) (format : Format.t)
    (names_only files_only : bool) : Eff response :=
  catching
    (output <- runHook (search_args query format names_only files_only) ;;
     if negb (truthy output)
     then ret (textResponse
                 (lit "No bookmarks found matching '" ++ query ++ lit "'."))
     else ret (textResponse output)).

(** *** hookmark_remove *)

Definition remove_args (item_a item_b : str) : list str :=
  [lit "remove"; item_a; item_b].

Definition hookmark_remove (item_a item_b : str) : Eff response :=
  catching
    (output <- runHook (remove_args item_a item_b) ;;
     ret (textResponse
            (or_else output
               (lit "Hook removed between '" ++ item_a ++ lit "' and '" ++
                item_b ++ lit "'.")))).

(** *** hookmark_clone *)

Definition clone_args (source destination : str) : list str :=
  [lit "clone"; source; destination].

Definition hookmark_clone (source destination : str) : Eff response :=
  catching
    (output <- runHook (clone_args source destination) ;;
     ret (textResponse
            (or_else output
               (lit "Cloned hooks from '" ++ source ++ lit "' to '" ++
                destination ++ lit "'.")))).

(** *** hookmark_frontmost *)

Definition frontmost_args (app : str) (markdown : bool) : list str :=
  let args := [lit "from"] in
  let args := if markdown then args ++ [lit "--markdown"] else args in
  args ++ [app].

Definition hookmark_frontmost (app : str) (markdown : bool) : Eff response :=
  catching
    (output <- runHook (frontmost_args app markdown) ;;
     if negb (truthy output)
     then ret (textResponse
                 (lit "Could not get a Hookmark URL from '" ++ app ++
                  lit "'. Make sure the app is running and has an active document."))
     else ret (textResponse output)).

(** ** Validated calls *)

(** The parameters a handler receives once its input schema has
    accepted the call and filled in the defaults. *)
Inductive call :=
| Link (item : str)
| Connect (item_a item_b : str)
| List_ (item : option str) (format : Format.t) (files_only : bool)
| Search (query : str) (format : Format.t) (names_only files_only : bool)
| Remove (item_a item_b : str)
| Clone (source destination : str)
| Frontmost (app : str) (markdown : bool).

(** The argument vector a call hands to [runHook]. *)
Definition argv (c : call) : list str :=
  match c with
  | Link item => link_args item
  | Connect a b => connect_args a b
  | List_ item f fo => list_args item f fo
  | Search q f n fo => search_args q f n fo
  | Remove a b => remove_args a b
  | Clone s d => clone_args s d
  | Frontmost app md => frontmost_args app md
  end.

Definition handle (c : call) : Eff response :=
  match c with
  | Link item => hookmark_link item
  | Connect a b => hookmark_connect a b
  | List_ item f fo => hookmark_list item f fo
  | Search q f n fo => hookmark_search q f n fo
  | Remove a b => hookmark_remove a b
  | Clone s d => hookmark_clone s d
  | Frontmost app md => hookmark_frontmost app md
  end.

End Server.

(** ** Input schemas *)

(** Call parameters as they arrive: a JSON object. *)
#[warnings="-register-all"] Inductive json :=
| JNull
| JBool (b : bool)
| JNumber (n : Z)
| JString (s : str)
| JArray (items : list json)
| JObject (fields : list (string * json)).

Definition raw_input := list (string * json).

(** [input[key]]; [None] stands for [undefined]. *)
Fixpoint get (key : string) (o : raw_input) : option json :=
  match o with
  | [] => None
  | (k, v) :: rest => if String.eqb k key then Some v else get key rest
  end.

(** The schema combinators [index.ts] uses; each gives the parsed value
    or [None] when the input is refused. *)
Module Zod.

(** [z.string().min(n)] *)
Definition string_min (n : nat) (v : option json) : option str :=
  match v with
  | Some (JString s) => if Nat.leb n (List.length s) then Some s else None
  | _ => None
  end.

(** [z.string().optional()] *)
Definition string_optional (v : option json) : option (option str) :=
  match v with
  | None => Some None
  | Some (JString s) => Some (Some s)
  | Some _ => None
  end.

(** [z.enum(["paths", "hooks", "markdown", "verbose"]).default(d)] *)
Definition format_default (d : Format.t) (v : option json) : option Format.t :=
  match v with
  | None => Some d
  | Some (JString s) => Format.of_str s
  | Some _ => None
  end.

(** [z.boolean().default(d)] *)
Definition boolean_default (d : bool) (v : option json) : option bool :=
  match v with
  | None => Some d
  | Some (JBool b) => Some b
  | Some _ => None
  end.

End Zod.

Inductive tool :=
| Tool_link | Tool_connect | Tool_list | Tool_search
| Tool_remove | Tool_clone | Tool_frontmost.

Definition tool_name (t : tool) : string :=
  match t with
  | Tool_link => "hookmark_link"
  | Tool_connect => "hookmark_connect"
  | Tool_list => "hookmark_list"
  | Tool_search => "hookmark_search"
  | Tool_remove => "hookmark_remove"
  | Tool_clone => "hookmark_clone"
  | Tool_frontmost => "hookmark_frontmost"
  end.

Definition obind {A B} (m : option A) (k : A -> option B) : option B :=
  match m with Some a => k a | None => None end.

(** The [inputSchema] of each registration, applied to a raw input. *)
Definition inputSchema (t : tool) (i : raw_input) : option call :=
  match t with
  | Tool_link =>
      obind (Zod.string_min 1 (get "item" i)) (fun item =>
      Some (Link item))
  | Tool_connect =>
      obind (Zod.string_min 1 (get "item_a" i)) (fun item_a =>
      obind (Zod.string_min 1 (get "item_b" i)) (fun item_b =>
      Some (Connect item_a item_b)))
  | Tool_list =>
      obind (Zod.string_optional (get "item" i)) (fun item =>
      obind (Zod.format_default Format.paths (get "format" i)) (fun format =>
      obind (Zod.boolean_default false (get "files_only" i)) (fun files_only =>
      Some (List_ item format files_only))))
  | Tool_search =>
      obind (Zod.string_min 1 (get "query" i)) (fun query =>
      obind (Zod.format_default Format.markdown (get "format" i)) (fun format =>
      obind (Zod.boolean_default false (get "names_only" i)) (fun names_only =>
      obind (Zod.boolean_default false (get "files_only" i)) (fun files_only =>
      Some (Search query format names_only files_only)))))
  | Tool_remove =>
      obind (Zod.string_min 1 (get "item_a" i)) (fun item_a =>
      obind (Zod.string_min 1 (get "item_b" i)) (fun item_b =>
      Some (Remove item_a item_b)))
  | Tool_clone =>
      obind (Zod.string_min 1 (get "source" i)) (fun source =>
      obind (Zod.string_min 1 (get "destination" i)) (fun destination =>
      Some (Clone source destination)))
  | Tool_frontmost =>
      obind (Zod.string_min 1 (get "app" i)) (fun app =>
      obind (Zod.boolean_default false (get "markdown" i)) (fun markdown =>
      Some (Frontmost app markdown)))
  end.

(** The parameters declared [z.string().min(1)]. *)
Definition required_params (t : tool) : list string :=
  match t with
  | Tool_link => ["item"]
  | Tool_connect => ["item_a"; "item_b"]
  | Tool_list => []
  | Tool_search => ["query"]
  | Tool_remove => ["item_a"; "item_b"]
  | Tool_clone => ["source"; "destination"]
  | Tool_frontmost => ["app"]
  end%string.

(** The tools that declare the [format] enumeration. *)
Definition has_format (t : tool) : bool :=
  match t with
  | Tool_list | Tool_search => true
  | _ => false
  end.

(** ** Dispatch *)

Inductive reply :=
| Rejected                    (* validation error, reported by the registry *)
| Replied (r : response).     (* what the handler returned *)

(** Modelled from the spec: the registry's dispatch of a call, which is
    the RPC library's [McpServer] and not part of [index.ts].  Section
    4.2: on invocation it validates the parameters against the declared
    schema, and only then delegates to the handler; validation failures
    are rejected and surfaced as a validation error of their own. *)
Definition callTool (env_HOOK_CLI : option str)
    (os : str -> exec_options -> exec_outcome)
    (t : tool) (i : raw_input) : Eff reply :=
  match inputSchema t i with
  | None => ret Rejected
  | Some c => r <- handle env_HOOK_CLI os c ;; ret (Replied r)
  end.

(** ** What the runtime does with a command *)

Definition has_nul (s : str) : bool := existsb (N.eqb 0) s.

(** [execSync] refuses a command that holds a NUL character. *)
Definition checks_command (os : str -> exec_options -> exec_outcome) : Prop :=
  forall cmd options, has_nul cmd = true -> exists message, os cmd options = Refused message.

(** The command reaches the shell encoded as UTF-8.  Code units are
    first read as code points: a high surrogate followed by a low one
    is one supplementary code point, and a surrogate without its
    partner is replaced by U+FFFD. *)
Definition is_high (c : char) : bool := ((55296 <=? c) && (c <=? 56319))%N.
Definition is_low (c : char) : bool := ((56320 <=? c) && (c <=? 57343))%N.

Fixpoint scalars (s : str) : list N :=
  match s with
  | [] => []
  | c :: t =>
      if is_high c then
        match t with
        | d :: t' =>
            if is_low d
            then (65536 + (c - 55296) * 1024 + (d - 56320))%N :: scalars t'
            else 65533%N :: scalars t
        | [] => [65533%N]
        end
      else if is_low c then 65533%N :: scalars t
      else c :: scalars t
  end.

(** The bytes of one code point. *)
Definition encode_scalar (cp : N) : list N :=
  (if cp <? 128 then [cp]
   else if cp <? 2048 then [192 + cp / 64; 128 + cp mod 64]
   else if cp <? 65536
        then [224 + cp / 4096; 128 + (cp / 64) mod 64; 128 + cp mod 64]
   else [240 + cp / 262144; 128 + (cp / 4096) mod 64;
         128 + (cp / 64) mod 64; 128 + cp mod 64])%N.

Definition utf8 (s : str) : list N := flat_map encode_scalar (scalars s).

(** ** The documented contracts, for comparison with the code *)

(** A text of the form the pattern describes: [hook://] followed by
    one or more characters that are neither white space nor quotes. *)
Definition is_hook_url (u : str) : bool :=
  match strip_prefix (lit "hook://") u with
  | Some body => truthy body && forallb url_char body
  | None => false
  end.

(** The fixed sub-command token of each operation (table of section
    4.2). *)
Definition token (c : call) : str :=
  match c with
  | Link _ => lit "clip"
  | Connect _ _ => lit "link"
  | List_ _ _ _ => lit "list"
  | Search _ _ _ _ => lit "find"
  | Remove _ _ => lit "remove"
  | Clone _ _ => lit "clone"
  | Frontmost _ _ => lit "from"
  end.

(** A flag option: one that carries a value, or a boolean switch. *)
Inductive flag :=
| WithValue (name value : str)
| Switch (name : str) (on : bool).

(** [-o <value>] for a valued option, a standalone token for a switch
    that is on, nothing for a switch that is off. *)
Definition emit (f : flag) : list str :=
  match f with
  | WithValue name value => [name; value]
  | Switch name true => [name]
  | Switch _ false => []
  end.

(** The flag options of each operation, in the order of the table. *)
Definition flags (c : call) : list flag :=
  match c with
  | List_ _ format files_only =>
      [WithValue (lit "-o") (Format.to_str format);
       Switch (lit "--files_only") files_only]
  | Search _ format names_only files_only =>
      [WithValue (lit "-o") (Format.to_str format);
       Switch (lit "--names_only") names_only;
       Switch (lit "--files_only") files_only]
  | Frontmost _ markdown => [Switch (lit "--markdown") markdown]
  | _ => []
  end.

(** An optional operand is given when it is present and not the empty
    string. *)
Definition given (o : option str) : list str :=
  match o with
  | Some i => if truthy i then [i] else []
  | None => []
  end.

(** The positional operands of each operation, in documented order. *)
Definition operands (c : call) : list str :=
  match c with
  | Link item => [item]
  | Connect item_a item_b => [item_a; item_b]
  | List_ item _ _ => given item
  | Search query _ _ _ => [query]
  | Remove item_a item_b => [item_a; item_b]
  | Clone source destination => [source; destination]
  | Frontmost app _ => [app]
  end.

(** The argument ordering rule of section 4.2. *)
Definition documented_argv (c : call) : list str :=
  token c :: flat_map emit (flags c) ++ operands c.

(** The failure text as section 4.1 words it: the trimmed error stream
    if non-empty, else the trimmed output stream if non-empty, else a
    generic message naming the sub-command. *)
Definition documented_failure_text (args : list str) (stderr stdout : str)
  : str :=
  or_else (trim stderr)
    (or_else (trim stdout) (lit "hook " ++ arg0 args ++ lit " failed")).

(** The table at the head of [index.ts]: the CLI command each tool is
    documented to run. *)
Definition cli_command (t : tool) : str :=
  match t with
  | Tool_link => lit "clip"
  | Tool_connect => lit "link"
  | Tool_list => lit "list"
  | Tool_search => lit "find"
  | Tool_remove => lit "remove"
  | Tool_clone => lit "clone"
  | Tool_frontmost => lit "from"
  end.

(** * Properties *)

(** ** Strings *)

Lemma truthy_nonempty (s : str) : truthy s = true <-> s <> [].
Proof.
  destruct s; simpl; split; intro H; try discriminate; try reflexivity.
  now elim H.
Qed.

Lemma truthy_app_l (a b : str) : truthy a = true -> truthy (a ++ b) = true.
Proof. destruct a; simpl; [discriminate | reflexivity]. Qed.

Lemma or_else_truthy (a b : str) : truthy a = true -> or_else a b = a.
Proof. unfold or_else; intros ->; reflexivity. Qed.

Lemma or_else_empty (b : str) : or_else [] b = b.
Proof. reflexivity. Qed.

Lemma includes_app (a u b : str) : includes (a ++ u ++ b) u.
Proof. exists (List.length a), a, b; split; reflexivity. Qed.

Lemma includes_empty (s : str) : includes s [].
Proof. exists 0%nat, [], s; split; reflexivity. Qed.

(** ** Quoting for the shell *)

Module ShFacts.
Import Sh.

(** Inside single quotes, the escaped image of [s] followed by the
    closing quote adds exactly [s] to the word under construction. *)
Lemma lex_quoted_body (s w : str) (acc : list str) (rest : str) :
  lex SQ (Some w) acc (replace_all SQUOTE (lit "'\''") s ++ lit "'" ++ rest)
  = lex Unq (Some (w ++ s)) acc rest.
Proof.
  change (lit "'\''") with [39; 92; 39; 39]%N.
  change (lit "'") with [39%N]. unfold SQUOTE.
  revert w; induction s as [|c s IH]; intro w.
  - simpl. now rewrite app_nil_r.
  - cbn [replace_all]. unfold char_eqb.
    destruct (N.eqb_spec c 39) as [->|Hc].
    + cbn [app lex N.eqb Pos.eqb is_blank orb]. unfold start, push.
      rewrite IH. now rewrite <- app_assoc.
    + cbn [app lex]. apply N.eqb_neq in Hc. rewrite Hc.
      unfold push. rewrite IH. now rewrite <- app_assoc.
Qed.

Lemma lex_shellEscape (s : str) (acc : list str) (rest : str) :
  lex Unq None acc (shellEscape s ++ rest) = lex Unq (Some s) acc rest.
Proof.
  unfold shellEscape. rewrite <- !app_assoc.
  change (lit "'" ++ ?x) with (39%N :: x).
  cbn [lex N.eqb Pos.eqb is_blank orb]. unfold start.
  now rewrite (lex_quoted_body s [] acc rest).
Qed.

Lemma lex_join_escaped (xs : list str) (acc : list str) :
  xs <> [] ->
  lex Unq None acc (join (lit " ") (map shellEscape xs)) = Some (acc ++ xs).
Proof.
  revert acc; induction xs as [|x xs IH]; intros acc Hne; [now elim Hne|].
  destruct xs as [|y ys].
  - cbn [map join]. rewrite <- (app_nil_r (shellEscape x)).
    rewrite lex_shellEscape. reflexivity.
  - change (join (lit " ") (map shellEscape (x :: y :: ys)))
      with (shellEscape x ++ lit " " ++ join (lit " ") (map shellEscape (y :: ys))).
    rewrite lex_shellEscape.
    change (lit " ") with [32%N]. cbn [app lex is_blank N.eqb Pos.eqb orb flush].
    change [32%N] with (lit " ").
    rewrite IH by discriminate. now rewrite <- app_assoc.
Qed.

End ShFacts.

(** C1. For every argument string, and so for every one that contains
    single quotes, the shell reads [shellEscape s] back as exactly one
    word, and that word is [s]. *)
Theorem shellEscape_roundtrip (s : str) :
  Sh.words (shellEscape s) = Some [s].
Proof.
  unfold Sh.words. rewrite <- (app_nil_r (shellEscape s)).
  now rewrite ShFacts.lex_shellEscape.
Qed.

(** The whole command line of [runHook] reads back as the binary path
    followed by the argument vector. *)
Lemma command_line_words (env : option str) (args : list str) :
  Sh.words (command_line env args) = Some (HOOK_CLI env :: args).
Proof.
  unfold Sh.words, command_line.
  now rewrite ShFacts.lex_join_escaped by discriminate.
Qed.

Example shellEscape_its : shellEscape (lit "it's") = lit "'it'\''s'".
Proof. reflexivity. Qed.

(** ** Trimming *)

Lemma take_drop_while (p : char -> bool) (s : str) :
  s = takeWhile p s ++ dropWhile p s.
Proof.
  induction s as [|c s IH]; simpl; [reflexivity|].
  destruct (p c); simpl; [now rewrite <- IH | reflexivity].
Qed.

Lemma takeWhile_all (p : char -> bool) (s : str) :
  forallb p (takeWhile p s) = true.
Proof.
  induction s as [|c s IH]; simpl; [reflexivity|].
  destruct (p c) eqn:E; simpl; [now rewrite E | reflexivity].
Qed.

Lemma dropWhile_head (p : char -> bool) (s : str) (c : char) :
  hd_error (dropWhile p s) = Some c -> p c = false.
Proof.
  induction s as [|x s IH]; simpl; [discriminate|].
  destruct (p x) eqn:E; [exact IH|].
  simpl. intros [= <-]. exact E.
Qed.

Lemma dropWhile_none (p : char -> bool) (s : str) :
  forallb p s = true -> dropWhile p s = [].
Proof.
  induction s as [|x s IH]; simpl; [reflexivity|].
  destruct (p x); simpl; [exact IH | discriminate].
Qed.

Lemma dropWhile_id (p : char -> bool) (c : char) (s : str) :
  p c = false -> dropWhile p (c :: s) = c :: s.
Proof. simpl. now intros ->. Qed.

Lemma forallb_rev_true (p : char -> bool) (s : str) :
  forallb p s = true -> forallb p (rev s) = true.
Proof.
  induction s as [|c s IH]; simpl; [reflexivity|].
  intros [Hc Hs]%andb_prop. rewrite forallb_app, IH by exact Hs.
  simpl. now rewrite Hc.
Qed.

Lemma trimEnd_split (s : str) :
  s = trimEnd s ++ rev (takeWhile is_ws (rev s)).
Proof.
  unfold trimEnd. rewrite <- rev_app_distr, <- take_drop_while.
  now rewrite rev_involutive.
Qed.

(** What [trim] removes is white space on both sides, and nothing more
    could be removed. *)
Lemma trim_spec (s : str) :
  exists l r,
    s = l ++ trim s ++ r /\
    forallb is_ws l = true /\ forallb is_ws r = true /\
    (forall c, hd_error (trim s) = Some c -> is_ws c = false) /\
    (forall c, hd_error (rev (trim s)) = Some c -> is_ws c = false).
Proof.
  exists (takeWhile is_ws s), (rev (takeWhile is_ws (rev (trimStart s)))).
  split; [|split; [|split; [|split]]].
  - unfold trim. rewrite <- trimEnd_split. apply take_drop_while.
  - apply takeWhile_all.
  - apply forallb_rev_true, takeWhile_all.
  - intros c Hc. apply (dropWhile_head is_ws s).
    fold (trimStart s). rewrite (trimEnd_split (trimStart s)).
    fold (trim s). destruct (trim s); [discriminate | exact Hc].
  - intros c Hc. unfold trim, trimEnd in Hc. rewrite rev_involutive in Hc.
    eapply dropWhile_head; exact Hc.
Qed.

Lemma trim_blank (s : str) : forallb is_ws s = true -> trim s = [].
Proof.
  intro H. unfold trim, trimStart. now rewrite (dropWhile_none _ _ H).
Qed.

(** ** The command invoker *)

Section Invoker.

Variable env : option str.
Variable os : str -> exec_options -> exec_outcome.

Lemma runHook_exit0 (args : list str) (tr : trace) (out : str) :
  os (command_line env args) runHook_options = Exited0 out ->
  runHook env os args tr = (Ok (trim out), tr ++ [Spawn (command_line env args) runHook_options]).
Proof.
  intro H. unfold runHook, try_catch, bind, execSync. now rewrite H.
Qed.

Lemma runHook_exec_error (args : list str) (tr : trace)
    (stderr stdout message : str) :
  os (command_line env args) runHook_options
    = Raised (ExecError stderr stdout message) ->
  runHook env os args tr =
    (Throw (PlainError
       (or_else (trim (or_else stderr (or_else message [])))
                (lit "hook " ++ arg0 args ++ lit " failed"))),
     tr ++ [Spawn (command_line env args) runHook_options]).
Proof.
  intro H. unfold runHook, try_catch, bind, execSync. now rewrite H.
Qed.

(** [runHook] starts exactly one process, unless [execSync] refuses the
    command; then it starts none. *)
Lemma runHook_trace (args : list str) (tr : trace) :
  snd (runHook env os args tr) =
  match os (command_line env args) runHook_options with
  | Refused _ => tr
  | _ => tr ++ [Spawn (command_line env args) runHook_options]
  end.
Proof.
  unfold runHook, try_catch, bind, execSync.
  destruct (os _ _) as [out|[]|m]; reflexivity.
Qed.

(** [runHook] asks the operating system about its own command line
    only. *)
Lemma runHook_local (os' : str -> exec_options -> exec_outcome)
    (args : list str) (tr : trace) :
  os (command_line env args) runHook_options
    = os' (command_line env args) runHook_options ->
  runHook env os args tr = runHook env os' args tr.
Proof.
  intro H. unfold runHook, try_catch, bind, execSync. now rewrite H.
Qed.

Lemma runHook_refused (args : list str) (tr : trace) (m : str) :
  os (command_line env args) runHook_options = Refused m ->
  runHook env os args tr = (Throw (PlainError m), tr).
Proof.
  intro H. unfold runHook, try_catch, bind, execSync. now rewrite H.
Qed.

End Invoker.

(** C7. When the child exits with status zero, [runHook] returns its
    standard output with the leading and trailing white space removed
    (and nothing else); the one process it spawns has standard input
    disabled and standard output and standard error on separate
    pipes. *)
Theorem runHook_success (env : option str)
    (os : str -> exec_options -> exec_outcome)
    (args : list str) (tr : trace) (out : str) :
  os (command_line env args) runHook_options = Exited0 out ->
  exists options,
    runHook env os args tr
      = (Ok (trim out), tr ++ [Spawn (command_line env args) options]) /\
    stdio options = [StdioIgnore; StdioPipe; StdioPipe] /\
    exists l r,
      out = l ++ trim out ++ r /\
      forallb is_ws l = true /\ forallb is_ws r = true /\
      (forall c, hd_error (trim out) = Some c -> is_ws c = false) /\
      (forall c, hd_error (rev (trim out)) = Some c -> is_ws c = false).
Proof.
  intro H. exists runHook_options. split; [|split].
  - now apply runHook_exit0.
  - reflexivity.
  - apply trim_spec.
Qed.

Lemma runHook_success_witness :
  (fun _ _ => Exited0 (lit "  hook://file/A  ")) (command_line None [lit "clip"; lit "a"]) runHook_options
    = Exited0 (lit "  hook://file/A  ") /\
  exists options,
    runHook None (fun _ _ => Exited0 (lit "  hook://file/A  ")) [lit "clip"; lit "a"] []
      = (Ok (lit "hook://file/A"),
         [Spawn (lit "'/opt/homebrew/lib/ruby/gems/4.0.0/bin/hook' 'clip' 'a'") options]) /\
    stdio options = [StdioIgnore; StdioPipe; StdioPipe].
Proof.
  split; [reflexivity|].
  destruct (@runHook_success None (fun _ _ => Exited0 (lit "  hook://file/A  "))
              [lit "clip"; lit "a"] [] (lit "  hook://file/A  ") eq_refl)
    as (options & Hrun & Hstdio & _).
  exists options. split; [exact Hrun | exact Hstdio].
Defined.

(** The documented failure text does not hold of the code: with an
    empty error stream and [oops] on the output stream, [runHook]
    raises the message of the execution error, not [oops]. *)
Lemma runHook_failure_text_counterexample :
  fst (runHook None
         (fun cmd _ =>
            Raised (ExecError [] (lit "oops") (lit "Command failed: " ++ cmd)))
         [lit "clip"; lit "x"] [])
  <> Throw (PlainError
              (documented_failure_text [lit "clip"; lit "x"] [] (lit "oops"))).
Proof. intro H. vm_compute in H. discriminate H. Qed.

Example runHook_failure_text_actual :
  fst (runHook None
         (fun cmd _ =>
            Raised (ExecError [] (lit "oops") (lit "Command failed: " ++ cmd)))
         [lit "clip"; lit "x"] [])
  = Throw (PlainError
      (lit "Command failed: '/opt/homebrew/lib/ruby/gems/4.0.0/bin/hook' 'clip' 'x'")).
Proof. reflexivity. Qed.

(** C2, as the code has it.  When the child exits non-zero or times
    out, the failure raised by [runHook] carries the trimmed error
    stream if that is non-empty; else, when the error stream is empty,
    the trimmed message of the execution error if that is non-empty;
    else the generic message naming the first element of the argument
    vector.  The output stream is never consulted. *)
Theorem runHook_failure_text (env : option str)
    (os : str -> exec_options -> exec_outcome)
    (args : list str) (tr : trace) (stderr stdout message : str) :
  os (command_line env args) runHook_options
    = Raised (ExecError stderr stdout message) ->
  exists text,
    runHook env os args tr
      = (Throw (PlainError text),
         tr ++ [Spawn (command_line env args) runHook_options]) /\
    (trim stderr <> [] -> text = trim stderr) /\
    (stderr = [] -> trim message <> [] -> text = trim message) /\
    ((stderr <> [] /\ trim stderr = []) \/ (stderr = [] /\ trim message = []) ->
     text = lit "hook " ++ arg0 args ++ lit " failed").
Proof.
  intro H. eexists. split; [eapply runHook_exec_error; exact H|].
  split; [|split].
  - intro Hne.
    assert (Hs : truthy stderr = true).
    { apply truthy_nonempty. intros ->. now apply Hne. }
    rewrite (or_else_truthy _ _ Hs).
    apply or_else_truthy. now apply truthy_nonempty.
  - intros -> Hne. rewrite or_else_empty.
    assert (Hm : truthy message = true).
    { apply truthy_nonempty. intros ->. now apply Hne. }
    rewrite (or_else_truthy _ _ Hm).
    apply or_else_truthy. now apply truthy_nonempty.
  - intros [[Hne Hblank] | [-> Hblank]].
    + apply truthy_nonempty in Hne. rewrite (or_else_truthy _ _ Hne).
      now rewrite Hblank.
    + rewrite or_else_empty. destruct message as [|m ms].
      * reflexivity.
      * cbn [or_else truthy]. now rewrite Hblank.
Qed.

Lemma runHook_failure_text_witness :
  (fun _ _ => Raised (ExecError (lit "Hookmark is not running ") [] (lit "Command failed")))
    (command_line None [lit "link"; lit "a.pdf"; lit "b.pdf"]) runHook_options
    = Raised (ExecError (lit "Hookmark is not running ") [] (lit "Command failed")) /\
  exists text,
    fst (runHook None
           (fun _ _ => Raised (ExecError (lit "Hookmark is not running ") []
                                 (lit "Command failed")))
           [lit "link"; lit "a.pdf"; lit "b.pdf"] [])
      = Throw (PlainError text) /\
    text = lit "Hookmark is not running".
Proof.
  split; [reflexivity|].
  destruct (@runHook_failure_text None
              (fun _ _ => Raised (ExecError (lit "Hookmark is not running ") []
                                    (lit "Command failed")))
              [lit "link"; lit "a.pdf"; lit "b.pdf"] []
              (lit "Hookmark is not running ") [] (lit "Command failed") eq_refl)
    as (text & Hrun & Hstderr & _).
  exists text. split.
  - now rewrite Hrun.
  - apply Hstderr. vm_compute. discriminate.
Defined.

(** ** The handlers *)

Ltac unfold_handler :=
  unfold handle, hookmark_link, hookmark_connect, hookmark_list,
    hookmark_search, hookmark_remove, hookmark_clone, hookmark_frontmost,
    catching, try_catch, bind, ret.

(** A handler's catch clause turns whatever [runHook] threw into the
    error envelope. *)
Lemma handle_catches (env : option str)
    (os : str -> exec_options -> exec_outcome)
    (c : call) (tr tr' : trace) (e : thrown) :
  runHook env os (argv c) tr = (Throw e, tr') ->
  handle env os c tr = (Ok (errorResponse e), tr').
Proof.
  intro H. destruct c; cbn [argv] in H; unfold_handler; now rewrite H.
Qed.

(** A handler always returns; nothing it does can throw past its catch
    clause, and it starts no process besides the one of [runHook]. *)
Lemma handle_returns (env : option str)
    (os : str -> exec_options -> exec_outcome)
    (c : call) (tr : trace) :
  exists r, handle env os c tr = (Ok r, snd (runHook env os (argv c) tr)).
Proof.
  destruct (runHook env os (argv c) tr) as [[out|e] tr'] eqn:H; cbn [snd].
  - destruct c; cbn [argv] in H; unfold_handler; rewrite H;
      repeat match goal with
             | |- context [if ?b then _ else _] => destruct b
             end; eexists; reflexivity.
  - exists (errorResponse e). now apply handle_catches.
Qed.

(** C4. For each of the seven operations, when [runHook] raises a
    failure the handler returns the envelope with [isError] set and a
    single text item, the failure's message after the prefix
    [Error: ]; and in every case the handler returns an envelope, so no
    exception leaves it. *)
Theorem handler_error_envelope (env : option str)
    (os : str -> exec_options -> exec_outcome)
    (c : call) (tr : trace) :
  (exists r tr', handle env os c tr = (Ok r, tr')) /\
  (forall e tr',
     runHook env os (argv c) tr = (Throw e, tr') ->
     handle env os c tr
       = (Ok (Response [Text (lit "Error: " ++ error_message e)] (Some true)),
          tr')).
Proof.
  split.
  - destruct (handle_returns env os c tr) as [r Hr].
    exists r. eexists. exact Hr.
  - intros e tr' H. now apply handle_catches.
Qed.

Lemma handler_error_envelope_witness :
  runHook None
    (fun _ _ => Raised (ExecError (lit "Hookmark is not running") []
                          (lit "Command failed")))
    (argv (Connect (lit "a.pdf") (lit "b.pdf"))) []
  = (Throw (PlainError (lit "Hookmark is not running")),
     [Spawn (lit "'/opt/homebrew/lib/ruby/gems/4.0.0/bin/hook' 'link' 'a.pdf' 'b.pdf'")
        runHook_options]) /\
  handle None
    (fun _ _ => Raised (ExecError (lit "Hookmark is not running") []
                          (lit "Command failed")))
    (Connect (lit "a.pdf") (lit "b.pdf")) []
  = (Ok (Response [Text (lit "Error: Hookmark is not running")] (Some true)),
     [Spawn (lit "'/opt/homebrew/lib/ruby/gems/4.0.0/bin/hook' 'link' 'a.pdf' 'b.pdf'")
        runHook_options]).
Proof.
  split; [reflexivity|].
  apply (proj2 (handler_error_envelope None
                  (fun _ _ => Raised (ExecError (lit "Hookmark is not running") []
                                        (lit "Command failed")))
                  (Connect (lit "a.pdf") (lit "b.pdf")) [])
           (PlainError (lit "Hookmark is not running"))).
  reflexivity.
Defined.

(** ** Argument vectors *)

Lemma argv_shape (c : call) : argv c = documented_argv c.
Proof.
  unfold documented_argv.
  destruct c as [item | a b | item f fo | q f n fo | a b | s d | name md];
    cbn [argv token flags operands flat_map emit app].
  - reflexivity.
  - reflexivity.
  - unfold list_args, given.
    destruct fo; destruct item as [i|]; try destruct (truthy i); reflexivity.
  - unfold search_args. destruct n, fo; reflexivity.
  - reflexivity.
  - reflexivity.
  - unfold frontmost_args. destruct md; reflexivity.
Qed.

Lemma argv_head (c : call) : hd_error (argv c) = Some (token c).
Proof. now rewrite argv_shape. Qed.

Example frontmost_mail_markdown :
  argv (Frontmost (lit "Mail") true) = [lit "from"; lit "--markdown"; lit "Mail"].
Proof. reflexivity. Qed.

Example search_invoice_paths :
  argv (Search (lit "invoice") Format.paths false false)
  = [lit "find"; lit "-o"; lit "paths"; lit "invoice"].
Proof. reflexivity. Qed.

(** The command line determines the argument vector. *)
Lemma command_line_inj (env : option str) (a b : list str) :
  command_line env a = command_line env b -> a = b.
Proof.
  intro H. pose proof (command_line_words env a) as Ha.
  rewrite H, command_line_words in Ha. now injection Ha.
Qed.

Lemma handle_trace (env : option str)
    (os : str -> exec_options -> exec_outcome) (c : call) (tr : trace) :
  snd (handle env os c tr) = snd (runHook env os (argv c) tr).
Proof. destruct (handle_returns env os c tr) as [r Hr]. now rewrite Hr. Qed.

(** A handler asks the operating system about one command line only,
    the one of its argument vector. *)
Lemma handle_local (env : option str)
    (os os' : str -> exec_options -> exec_outcome) (c : call) (tr : trace) :
  os (command_line env (argv c)) runHook_options
    = os' (command_line env (argv c)) runHook_options ->
  handle env os c tr = handle env os' c tr.
Proof.
  intro H. pose proof (runHook_local env os os' (argv c) tr H) as Hrun.
  destruct c; cbn [argv] in Hrun; unfold_handler; now rewrite Hrun.
Qed.

(** C5. For each of the seven operations and all parameter values the
    schema lets through, the argument vector the handler builds for
    the invoker is the operation's fixed sub-command token, then the
    flag options ([-o <value>], or a standalone token for a boolean
    that is true, nothing for one that is false), then the positional
    operands that are given, in the documented order.  The handler
    hands this vector, and no other, to the invoker: the process it
    starts is started from the command line of this vector, which is
    the command line of no other vector, and the handler's answer
    depends on the operating system through this command line only.
    With [app = Mail] and [markdown = true], [frontmost] runs
    [from --markdown Mail]. *)
Theorem argv_documented (c : call) :
  argv c = token c :: flat_map emit (flags c) ++ operands c /\
  (forall env os tr,
     (forall m, os (command_line env (documented_argv c)) runHook_options
                <> Refused m) ->
     snd (handle env os c tr)
     = tr ++ [Spawn (command_line env (documented_argv c)) runHook_options]) /\
  (forall env os os' tr,
     os (command_line env (documented_argv c)) runHook_options
       = os' (command_line env (documented_argv c)) runHook_options ->
     handle env os c tr = handle env os' c tr) /\
  (forall env args,
     command_line env args = command_line env (documented_argv c) ->
     args = token c :: flat_map emit (flags c) ++ operands c) /\
  snd (handle None (fun _ _ => Exited0 []) (Frontmost (lit "Mail") true) [])
    = [Spawn (lit "'/opt/homebrew/lib/ruby/gems/4.0.0/bin/hook' 'from' '--markdown' 'Mail'")
         runHook_options].
Proof.
  split; [exact (argv_shape c)|]. rewrite <- (argv_shape c).
  split; [|split; [|split]].
  - intros env os tr Hos. rewrite handle_trace, runHook_trace.
    destruct (os _ _) as [out|e|m]; [reflexivity | reflexivity |].
    now elim (Hos m).
  - intros env os os' tr H. now apply handle_local.
  - intros env args H. apply command_line_inj in H. rewrite H.
    exact (argv_shape c).
  - reflexivity.
Qed.

Lemma argv_documented_witness :
  snd (handle None (fun _ _ => Exited0 [])
         (Search (lit "invoice") Format.paths false true) [])
  = [Spawn (lit "'/opt/homebrew/lib/ruby/gems/4.0.0/bin/hook' 'find' '-o' 'paths' '--files_only' 'invoice'")
       runHook_options].
Proof.
  apply (proj1 (proj2 (argv_documented
                         (Search (lit "invoice") Format.paths false true)))
           None (fun _ _ => Exited0 []) []).
  intros m. discriminate.
Defined.

(** ** Empty results *)

Section EmptyOutput.

Variable env : option str.
Variable os : str -> exec_options -> exec_outcome.

Lemma hookmark_search_empty (query : str) (format : Format.t)
    (names_only files_only : bool) (tr : trace) (out : str) :
  os (command_line env (search_args query format names_only files_only))
     runHook_options = Exited0 out ->
  trim out = [] ->
  fst (hookmark_search env os query format names_only files_only tr)
  = Ok (textResponse (lit "No bookmarks found matching '" ++ query ++ lit "'.")).
Proof.
  intros H Hblank. unfold hookmark_search, catching, try_catch, bind.
  rewrite (runHook_exit0 env os _ tr _ H), Hblank. reflexivity.
Qed.

Lemma hookmark_list_empty (item : option str) (format : Format.t)
    (files_only : bool) (tr : trace) (out : str) :
  os (command_line env (list_args item format files_only))
     runHook_options = Exited0 out ->
  trim out = [] ->
  fst (hookmark_list env os item format files_only tr)
  = Ok (textResponse
          (match given item with
           | [] => lit "No Hookmark bookmarks found."
           | i :: _ => lit "No hooks found for '" ++ i ++ lit "'."
           end)).
Proof.
  intros H Hblank. unfold hookmark_list, catching, try_catch, bind.
  rewrite (runHook_exit0 env os _ tr _ H), Hblank. cbn [truthy negb].
  unfold given. destruct item as [i|]; [destruct (truthy i)|]; reflexivity.
Qed.

End EmptyOutput.

(** C6. When the captured output of [list] or [search] is empty after
    trimming, the success text is a synthesized, non-empty message: for
    [search] it contains the query; for [list] with an item it
    contains the item; for [list] without an item it is the generic
    message. *)
Theorem empty_output_message (env : option str)
    (os : str -> exec_options -> exec_outcome) (tr : trace) (out : str) :
  trim out = [] ->
  (forall query format names_only files_only,
     os (command_line env (search_args query format names_only files_only))
        runHook_options = Exited0 out ->
     exists msg,
       fst (hookmark_search env os query format names_only files_only tr)
         = Ok (Response [Text msg] None) /\
       msg <> [] /\ includes msg query /\
       msg = lit "No bookmarks found matching '" ++ query ++ lit "'.") /\
  (forall item format files_only,
     os (command_line env (list_args item format files_only))
        runHook_options = Exited0 out ->
     exists msg,
       fst (hookmark_list env os item format files_only tr)
         = Ok (Response [Text msg] None) /\
       msg <> [] /\
       (forall i, item = Some i -> includes msg i) /\
       (item = None -> msg = lit "No Hookmark bookmarks found.")).
Proof.
  intro Hblank. split.
  - intros query format names_only files_only H. eexists.
    split; [exact (hookmark_search_empty env os _ _ _ _ tr _ H Hblank)|].
    split; [discriminate|]. split; [apply includes_app | reflexivity].
  - intros item format files_only H. eexists.
    split; [exact (hookmark_list_empty env os _ _ _ tr _ H Hblank)|].
    split; [|split].
    + destruct (given item); discriminate.
    + intros i ->. cbn [given]. destruct i as [|c i'].
      * apply includes_empty.
      * cbn [truthy]. apply includes_app.
    + intros ->. reflexivity.
Qed.

Lemma empty_output_message_witness :
  trim [32; 10]%N = [] /\
  fst (hookmark_search None (fun _ _ => Exited0 [32; 10]%N)
         (lit "invoice") Format.paths false false [])
    = Ok (Response [Text (lit "No bookmarks found matching 'invoice'.")] None) /\
  fst (hookmark_list None (fun _ _ => Exited0 [32; 10]%N)
         None Format.paths false [])
    = Ok (Response [Text (lit "No Hookmark bookmarks found.")] None).
Proof.
  split; [reflexivity|].
  destruct (@empty_output_message None (fun _ _ => Exited0 [32; 10]%N) []
              [32; 10]%N eq_refl) as [Hsearch Hlist].
  split.
  - destruct (Hsearch (lit "invoice") Format.paths false false eq_refl)
      as (msg & Hrun & _ & _ & ->). exact Hrun.
  - destruct (Hlist None Format.paths false eq_refl)
      as (msg & Hrun & _ & _ & Hmsg). rewrite <- (Hmsg eq_refl). exact Hrun.
Defined.

(** ** Validation *)

Lemma format_roundtrip (f : Format.t) : Format.of_str (Format.to_str f) = Some f.
Proof. destruct f; reflexivity. Qed.

Lemma string_min_empty (v : option json) :
  v = Some (JString []) \/ v = None -> Zod.string_min 1 v = None.
Proof. intros [-> | ->]; reflexivity. Qed.

(** A required parameter that is missing or the empty string makes the
    schema refuse the call. *)
Lemma required_param_refused (t : tool) (k : string) (i : raw_input) :
  In k (required_params t) ->
  get k i = Some (JString []) \/ get k i = None ->
  inputSchema t i = None.
Proof.
  intros Hk Hv. apply string_min_empty in Hv.
  destruct t; cbn [required_params In] in Hk;
    repeat match goal with
           | H : _ \/ _ |- _ => destruct H
           | H : False |- _ => destruct H
           end; subst k; cbn [inputSchema]; rewrite ?Hv; cbn [obind];
    try reflexivity;
    match goal with
    | |- obind ?m _ = None => destruct m; reflexivity
    end.
Qed.

(** A [format] outside the enumeration makes the schema refuse the
    call. *)
Lemma format_refused (t : tool) (s : str) (i : raw_input) :
  has_format t = true ->
  get "format" i = Some (JString s) ->
  Format.of_str s = None ->
  inputSchema t i = None.
Proof.
  intros Ht Hget Hs. destruct t; try discriminate Ht; cbn [inputSchema];
    rewrite Hget; cbn [Zod.format_default]; rewrite Hs;
    match goal with
    | |- obind ?m _ = None => destruct m; reflexivity
    end.
Qed.

Lemma callTool_rejects (env : option str)
    (os : str -> exec_options -> exec_outcome)
    (t : tool) (i : raw_input) (tr : trace) :
  inputSchema t i = None ->
  callTool env os t i tr = (Ok Rejected, tr).
Proof. intro H. unfold callTool. now rewrite H. Qed.

(** C8. A call whose parameters the declared schema refuses is rejected
    with the trace of spawned processes unchanged: the handler, and so
    [runHook], is not reached.  This is so in particular when a
    required parameter is the empty string or missing, and when
    [format] is outside the enumeration. *)
Theorem invalid_call_spawns_nothing (env : option str)
    (os : str -> exec_options -> exec_outcome)
    (t : tool) (i : raw_input) (tr : trace) :
  (inputSchema t i = None -> callTool env os t i tr = (Ok Rejected, tr)) /\
  (forall k,
     In k (required_params t) ->
     get k i = Some (JString []) \/ get k i = None ->
     callTool env os t i tr = (Ok Rejected, tr)) /\
  (forall s,
     has_format t = true ->
     get "format" i = Some (JString s) ->
     Format.of_str s = None ->
     callTool env os t i tr = (Ok Rejected, tr)).
Proof.
  split; [|split].
  - apply callTool_rejects.
  - intros k Hk Hv. apply callTool_rejects.
    exact (required_param_refused t k i Hk Hv).
  - intros s Ht Hget Hs. apply callTool_rejects.
    exact (format_refused t s i Ht Hget Hs).
Qed.

Lemma invalid_call_spawns_nothing_witness :
  inputSchema Tool_link [("item"%string, JString [])] = None /\
  Format.of_str (lit "xml") = None /\
  callTool None (fun _ _ => Exited0 []) Tool_link
    [("item"%string, JString [])] [] = (Ok Rejected, []) /\
  callTool None (fun _ _ => Exited0 []) Tool_search
    [("query"%string, JString (lit "invoice"));
     ("format"%string, JString (lit "xml"))] [] = (Ok Rejected, []).
Proof.
  split; [reflexivity|]. split; [reflexivity|]. split.
  - apply (proj1 (invalid_call_spawns_nothing None (fun _ _ => Exited0 [])
                    Tool_link [("item"%string, JString [])] [])).
    reflexivity.
  - apply (proj2 (proj2 (invalid_call_spawns_nothing None (fun _ _ => Exited0 [])
                    Tool_search
                    [("query"%string, JString (lit "invoice"));
                     ("format"%string, JString (lit "xml"))] []))
             (lit "xml")); reflexivity.
Defined.

(** A call the schema accepts does reach the invoker. *)
Lemma valid_call_reaches_invoker (env : option str)
    (os : str -> exec_options -> exec_outcome)
    (t : tool) (i : raw_input) (c : call) (tr : trace) :
  inputSchema t i = Some c ->
  exists r,
    callTool env os t i tr
    = (Ok (Replied r), snd (runHook env os (argv c) tr)).
Proof.
  intro H. unfold callTool. rewrite H.
  destruct (handle_returns env os c tr) as [r Hr].
  exists r. unfold bind. now rewrite Hr.
Qed.

(** ** The empty item of [list] *)

(** C9. For [list], the empty string passes the schema as an item; the
    argument vector is then the one of a call without item, the handler
    behaves as it does without item, and on empty output the generic
    message is returned. *)
Theorem list_empty_item (env : option str)
    (os : str -> exec_options -> exec_outcome)
    (format : Format.t) (files_only : bool) (tr : trace) :
  inputSchema Tool_list
    [("item"%string, JString []);
     ("format"%string, JString (Format.to_str format));
     ("files_only"%string, JBool files_only)]
    = Some (List_ (Some []) format files_only) /\
  argv (List_ (Some []) format files_only)
    = argv (List_ None format files_only) /\
  handle env os (List_ (Some []) format files_only) tr
    = handle env os (List_ None format files_only) tr /\
  (forall out,
     os (command_line env (argv (List_ None format files_only)))
        runHook_options = Exited0 out ->
     trim out = [] ->
     fst (handle env os (List_ (Some []) format files_only) tr)
     = Ok (Response [Text (lit "No Hookmark bookmarks found.")] None)).
Proof.
  split; [|split; [|split]].
  - cbn [inputSchema get String.eqb Ascii.eqb Bool.eqb obind
           Zod.string_optional Zod.format_default Zod.boolean_default].
    now rewrite format_roundtrip.
  - reflexivity.
  - reflexivity.
  - intros out H Hblank. cbn [handle argv] in *.
    exact (hookmark_list_empty env os (Some []) format files_only tr _ H Hblank).
Qed.

Lemma list_empty_item_witness :
  trim [10]%N = [] /\
  fst (handle None (fun _ _ => Exited0 [10]%N)
         (List_ (Some []) Format.hooks true) [])
  = Ok (Response [Text (lit "No Hookmark bookmarks found.")] None).
Proof.
  split; [reflexivity|].
  apply (proj2 (proj2 (proj2
           (list_empty_item None (fun _ _ => Exited0 [10]%N) Format.hooks true [])))
           [10]%N); reflexivity.
Defined.

(** ** The pattern of [extractHookUrl] *)

Lemma char_eqb_refl (c : char) : char_eqb c c = true.
Proof. apply N.eqb_refl. Qed.

Lemma strip_prefix_app (p r : str) : strip_prefix p (p ++ r) = Some r.
Proof.
  induction p as [|c p IH]; simpl; [now destruct r|].
  now rewrite char_eqb_refl.
Qed.

Lemma strip_prefix_some (p s r : str) :
  strip_prefix p s = Some r -> s = p ++ r.
Proof.
  revert s; induction p as [|c p IH]; intros s H.
  - destruct s; simpl in H; now inversion H.
  - destruct s as [|x s]; simpl in H; [discriminate|].
    unfold char_eqb in H. destruct (N.eqb_spec c x) as [->|]; [|discriminate].
    simpl. f_equal. now apply IH.
Qed.

Lemma takeWhile_app_all (p : char -> bool) (a b : str) :
  forallb p a = true -> takeWhile p (a ++ b) = a ++ takeWhile p b.
Proof.
  induction a as [|c a IH]; simpl; [reflexivity|].
  intros [Hc Ha]%andb_prop. rewrite Hc. now rewrite IH.
Qed.

Lemma is_hook_url_inv (u : str) :
  is_hook_url u = true ->
  exists c body,
    u = lit "hook://" ++ c :: body /\
    url_char c = true /\ forallb url_char body = true.
Proof.
  unfold is_hook_url. destruct (strip_prefix _ u) as [body|] eqn:E; [|discriminate].
  apply strip_prefix_some in E. destruct body as [|c body]; [discriminate|].
  cbn [truthy forallb andb]. intros [Hc Hb]%andb_prop. now exists c, body.
Qed.

Lemma is_hook_url_intro (c : char) (body : str) :
  url_char c = true -> forallb url_char body = true ->
  is_hook_url (lit "hook://" ++ c :: body) = true.
Proof.
  intros Hc Hb. unfold is_hook_url. rewrite strip_prefix_app.
  cbn [truthy forallb andb]. now rewrite Hc, Hb.
Qed.

Lemma is_hook_url_truthy (u : str) : is_hook_url u = true -> truthy u = true.
Proof. intros (c & body & -> & _)%is_hook_url_inv. reflexivity. Qed.

(** A successful attempt yields a text of the documented form, at the
    start of the input, that cannot be extended. *)
Lemma match_here_sound (s u : str) :
  match_here s = Some u ->
  exists post,
    s = u ++ post /\ is_hook_url u = true /\
    (forall c, hd_error post = Some c -> url_char c = false).
Proof.
  unfold match_here. destruct (strip_prefix _ s) as [rest|] eqn:E; [|discriminate].
  apply strip_prefix_some in E.
  destruct (takeWhile url_char rest) as [|c body] eqn:T; [discriminate|].
  intros [= <-]. exists (dropWhile url_char rest).
  pose proof (takeWhile_all url_char rest) as Hall. rewrite T in Hall.
  cbn [forallb] in Hall. apply andb_prop in Hall as [Hc Hb].
  split; [|split].
  - rewrite E.
    change (lit "hook://" ++ rest
            = lit "hook://" ++ (c :: body) ++ dropWhile url_char rest).
    f_equal. rewrite <- T. apply take_drop_while.
  - now apply is_hook_url_intro.
  - apply dropWhile_head.
Qed.

(** Wherever a text of the documented form starts, the attempt
    succeeds and yields its longest extension. *)
Lemma match_here_complete (v post : str) :
  is_hook_url v = true ->
  match_here (v ++ post) = Some (v ++ takeWhile url_char post).
Proof.
  intros (c & body & -> & Hc & Hb)%is_hook_url_inv.
  unfold match_here. rewrite <- app_assoc, strip_prefix_app.
  change ((c :: body) ++ post) with (c :: (body ++ post)).
  cbn [takeWhile]. rewrite Hc, (takeWhile_app_all _ _ _ Hb).
  now rewrite <- app_assoc.
Qed.

Lemma regex_match_unfold (s : str) :
  regex_match s =
  match match_here s with
  | Some m => Some m
  | None => match s with [] => None | _ :: t => regex_match t end
  end.
Proof. destruct s; reflexivity. Qed.

(** The match is where the first successful attempt is. *)
Lemma regex_match_sound (s u : str) :
  regex_match s = Some u ->
  exists pre post,
    s = pre ++ u ++ post /\
    match_here (u ++ post) = Some u /\
    (forall pre1 pre2,
       pre = pre1 ++ pre2 -> pre2 <> [] ->
       match_here (pre2 ++ u ++ post) = None).
Proof.
  induction s as [|c t IH]; rewrite regex_match_unfold.
  - destruct (match_here []) eqn:E; [|discriminate].
    intros [= ->]. destruct (match_here_sound _ _ E) as (post & Hs & _).
    exists [], post. cbn [app]. split; [exact Hs|]. split; [now rewrite <- Hs|].
    intros pre1 pre2 Hp Hne. destruct pre1, pre2; try discriminate Hp.
    now elim Hne.
  - destruct (match_here (c :: t)) as [m|] eqn:E.
    + intros [= ->]. destruct (match_here_sound _ _ E) as (post & Hs & _).
      exists [], post. cbn [app]. split; [exact Hs|]. split; [now rewrite <- Hs|].
      intros pre1 pre2 Hp Hne. destruct pre1, pre2; try discriminate Hp.
      now elim Hne.
    + intros H. destruct (IH H) as (pre & post & Hs & Hm & Hleft).
      exists (c :: pre), post. split; [now rewrite Hs|]. split; [exact Hm|].
      intros pre1 pre2 Hp Hne. destruct pre1 as [|x pre1].
      * cbn [app] in Hp. subst pre2. cbn [app]. now rewrite <- Hs.
      * injection Hp as _ Hp. now apply (Hleft pre1 pre2).
Qed.

(** An occurrence of the documented form anywhere makes the search
    succeed. *)
Lemma regex_match_complete (a v b : str) :
  is_hook_url v = true -> exists u, regex_match (a ++ v ++ b) = Some u.
Proof.
  intro Hv. induction a as [|c a IH]; rewrite regex_match_unfold.
  - cbn [app]. rewrite (match_here_complete _ _ Hv). eauto.
  - destruct (match_here ((c :: a) ++ v ++ b)); [eauto | exact IH].
Qed.

(** [extractHookUrl] returns the leftmost occurrence of the documented
    form, and of those that start there the longest. *)
Lemma extractHookUrl_leftmost_longest (s v : str) (j : nat) :
  is_hook_url v = true -> occurs_at j v s ->
  exists u i,
    extractHookUrl s = Some u /\ is_hook_url u = true /\ occurs_at i u s /\
    (forall v' j',
       is_hook_url v' = true -> occurs_at j' v' s ->
       (i <= j')%nat /\ (j' = i -> exists w, u = v' ++ w)).
Proof.
  intros Hv (a & b & Hs & Hj). unfold extractHookUrl.
  destruct (regex_match_complete a _ b Hv) as [u Hu]. rewrite <- Hs in Hu.
  destruct (regex_match_sound _ _ Hu) as (pre & post & Hs' & Hm & Hleft).
  exists u, (List.length pre). split; [exact Hu|].
  destruct (match_here_sound _ _ Hm) as (post' & _ & Hurl & _).
  split; [exact Hurl|]. split; [now exists pre, post|].
  intros v' j' Hv' (a' & b' & Ha' & Hj').
  assert (Hcases : (exists x, pre = a' ++ x /\ x <> [] /\ v' ++ b' = x ++ u ++ post)
                   \/ (exists x, a' = pre ++ x /\ u ++ post = x ++ v' ++ b')).
  { rewrite Hs' in Ha'. apply app_eq_app in Ha' as [x [[-> Hx] | [-> Hx]]].
    - destruct x as [|c x].
      + right. exists []. rewrite !app_nil_r. split; [reflexivity|]. now rewrite Hx.
      + left. exists (c :: x). split; [reflexivity|]. split; [discriminate|].
        exact Hx.
    - right. exists x. split; [reflexivity | exact Hx]. }
  destruct Hcases as [(x & -> & Hne & Hx) | (x & -> & Hx)].
  - exfalso. specialize (Hleft a' x eq_refl Hne).
    rewrite <- Hx, (match_here_complete _ _ Hv') in Hleft. discriminate.
  - subst j'. rewrite length_app. split; [lia|].
    intro Hlen. assert (x = []) as -> by (destruct x; [reflexivity | simpl in Hlen; lia]).
    cbn [app] in Hx. rewrite Hx, (match_here_complete _ _ Hv') in Hm.
    injection Hm as Hm. eauto.
Qed.

(** *** Trimming does not change the match *)

Lemma url_char_not_ws (c : char) : is_ws c = true -> url_char c = false.
Proof. unfold url_char. now intros ->. Qed.

Lemma strip_prefix_app_ws (p t r : str) :
  forallb (fun c => negb (is_ws c)) p = true ->
  forallb is_ws r = true ->
  strip_prefix p (t ++ r) = option_map (fun x => x ++ r) (strip_prefix p t).
Proof.
  revert t; induction p as [|c p IH]; intros t Hp Hr.
  - now destruct t.
  - cbn [forallb] in Hp. apply andb_prop in Hp as [Hc Hp].
    destruct t as [|y t].
    + cbn [app]. destruct r as [|x r]; [reflexivity|].
      cbn [forallb] in Hr. apply andb_prop in Hr as [Hx _].
      cbn [strip_prefix option_map]. unfold char_eqb.
      destruct (N.eqb_spec c x) as [->|]; [|reflexivity].
      rewrite Hx in Hc. discriminate.
    + cbn [app strip_prefix]. destruct (char_eqb c y); [|reflexivity].
      now apply IH.
Qed.

Lemma takeWhile_url_app_ws (body r : str) :
  forallb is_ws r = true ->
  takeWhile url_char (body ++ r) = takeWhile url_char body.
Proof.
  intro Hr. induction body as [|c body IH].
  - cbn [app]. destruct r as [|x r]; [reflexivity|].
    cbn [forallb] in Hr. apply andb_prop in Hr as [Hx _].
    cbn [takeWhile]. now rewrite (url_char_not_ws _ Hx).
  - cbn [app takeWhile]. now rewrite IH.
Qed.

Lemma match_here_app_ws (t r : str) :
  forallb is_ws r = true -> match_here (t ++ r) = match_here t.
Proof.
  intro Hr. unfold match_here.
  rewrite (strip_prefix_app_ws (lit "hook://") t r eq_refl Hr).
  destruct (strip_prefix (lit "hook://") t) as [rest|]; [|reflexivity].
  cbn [option_map]. now rewrite (takeWhile_url_app_ws rest r Hr).
Qed.

Lemma match_here_ws (c : char) (t : str) :
  is_ws c = true -> match_here (c :: t) = None.
Proof.
  intro Hc. unfold match_here.
  change (lit "hook://") with (104%N :: lit "ook://").
  cbn [strip_prefix]. unfold char_eqb.
  destruct (N.eqb_spec 104 c) as [<-|]; [discriminate Hc | reflexivity].
Qed.

Lemma regex_match_trimStart (s : str) :
  regex_match (trimStart s) = regex_match s.
Proof.
  unfold trimStart. induction s as [|c s IH]; [reflexivity|].
  cbn [dropWhile]. destruct (is_ws c) eqn:Hc; [|reflexivity].
  rewrite IH. symmetry. rewrite regex_match_unfold.
  now rewrite (match_here_ws c s Hc).
Qed.

Lemma regex_match_app_ws (t r : str) :
  forallb is_ws r = true -> regex_match (t ++ r) = regex_match t.
Proof.
  intro Hr. induction t as [|c t IH].
  - cbn [app]. rewrite <- (regex_match_trimStart r).
    unfold trimStart. now rewrite (dropWhile_none _ _ Hr).
  - rewrite (regex_match_unfold ((c :: t) ++ r)), (regex_match_unfold (c :: t)).
    rewrite (match_here_app_ws (c :: t) r Hr).
    destruct (match_here (c :: t)); [reflexivity | exact IH].
Qed.

(** The match found in the trimmed output is the match of the output
    as captured. *)
Lemma extractHookUrl_trim (s : str) :
  extractHookUrl (trim s) = extractHookUrl s.
Proof.
  unfold extractHookUrl.
  transitivity (regex_match (trimStart s)); [|apply regex_match_trimStart].
  pose proof (trimEnd_split (trimStart s)) as E. fold (trim s) in E.
  rewrite E. symmetry. apply regex_match_app_ws.
  apply forallb_rev_true, takeWhile_all.
Qed.

(** ** The link operation *)

Lemma hookmark_link_url (env : option str)
    (os : str -> exec_options -> exec_outcome)
    (item : str) (tr : trace) (stdout u : str) :
  os (command_line env (link_args item)) runHook_options = Exited0 stdout ->
  extractHookUrl stdout = Some u ->
  is_hook_url u = true ->
  hookmark_link env os item tr
  = (Ok (Response [Text u] None),
     tr ++ [Spawn (command_line env (link_args item)) runHook_options]).
Proof.
  intros H Hu Hurl. unfold hookmark_link, catching, try_catch, bind.
  rewrite (runHook_exit0 env os _ tr _ H), extractHookUrl_trim, Hu.
  cbn [truthy_opt]. now rewrite (is_hook_url_truthy _ Hurl).
Qed.

(** A text of the documented form that is the whole of [s] is what
    [extractHookUrl] returns from [s], and conversely. *)
Lemma extractHookUrl_whole (s u : str) :
  extractHookUrl s = Some u -> (u = s <-> is_hook_url s = true).
Proof.
  intro Hu. destruct (regex_match_sound _ _ Hu) as (pre & post & Hs & Hm & _).
  destruct (match_here_sound _ _ Hm) as (_ & _ & Hurl & _).
  split; [now intros <-|]. intro Hall.
  assert (H0 : occurs_at 0 s s) by (exists [], []; now rewrite app_nil_r).
  destruct (extractHookUrl_leftmost_longest s s 0 Hall H0)
    as (u' & i & Hu' & _ & Hi & Hleft).
  rewrite Hu in Hu'. injection Hu' as <-.
  destruct (Hleft _ _ Hall H0) as [Hle Hlong].
  assert (i = 0)%nat as -> by lia.
  destruct (Hlong eq_refl) as [w Hw].
  destruct Hi as (pre' & post' & Hs' & Hlen).
  destruct pre'; [|discriminate Hlen]. cbn [app] in Hs'.
  rewrite Hw, <- app_assoc in Hs'.
  rewrite <- (app_nil_r s) in Hs' at 1.
  apply app_inv_head in Hs'. symmetry in Hs'.
  apply app_eq_nil in Hs' as [-> _]. now rewrite app_nil_r in Hw.
Qed.

(** C3. For [link], when the captured output contains a text of the
    form [hook://] followed by one or more characters that are neither
    white space nor quotes, the success text is such a text taken from
    the output; it is not the output the handler would fall back to
    (the trimmed output), unless that is itself nothing but such a
    text. *)
Theorem link_returns_url (env : option str)
    (os : str -> exec_options -> exec_outcome)
    (item : str) (tr : trace) (stdout : str) :
  os (command_line env (link_args item)) runHook_options = Exited0 stdout ->
  (exists v, is_hook_url v = true /\ includes stdout v) ->
  exists u,
    fst (hookmark_link env os item tr) = Ok (Response [Text u] None) /\
    is_hook_url u = true /\ includes stdout u /\
    (u = trim stdout <-> is_hook_url (trim stdout) = true).
Proof.
  intros H (v & Hv & j & Hocc).
  destruct (extractHookUrl_leftmost_longest _ _ _ Hv Hocc)
    as (u & i & Hu & Hurl & Hi & _).
  exists u. split; [|split; [|split]].
  - now rewrite (hookmark_link_url env os item tr _ _ H Hu Hurl).
  - exact Hurl.
  - now exists i.
  - apply extractHookUrl_whole. now rewrite extractHookUrl_trim.
Qed.

Lemma link_returns_url_witness :
  (exists v, is_hook_url v = true /\
             includes (lit "Copied Hook URL hook://file/AbC123 to clipboard ") v) /\
  exists u,
    fst (hookmark_link None
           (fun _ _ => Exited0 (lit "Copied Hook URL hook://file/AbC123 to clipboard "))
           (lit "/Users/x/note.md") [])
      = Ok (Response [Text u] None) /\
    is_hook_url u = true.
Proof.
  assert (Hin : exists v, is_hook_url v = true /\
             includes (lit "Copied Hook URL hook://file/AbC123 to clipboard ") v).
  { exists (lit "hook://file/AbC123"). split; [reflexivity|].
    exists 16%nat, (lit "Copied Hook URL "), (lit " to clipboard ").
    split; reflexivity. }
  split; [exact Hin|].
  destruct (link_returns_url None
              (fun _ _ => Exited0 (lit "Copied Hook URL hook://file/AbC123 to clipboard "))
              (lit "/Users/x/note.md") [] _ eq_refl Hin)
    as (u & Hrun & Hurl & _).
  exists u. split; [exact Hrun | exact Hurl].
Defined.

Example link_scenario :
  hookmark_link None
    (fun _ _ => Exited0 (lit "Copied Hook URL hook://file/AbC123 to clipboard"))
    (lit "/Users/x/note.md") []
  = (Ok (Response [Text (lit "hook://file/AbC123")] None),
     [Spawn (lit "'/opt/homebrew/lib/ruby/gems/4.0.0/bin/hook' 'clip' '/Users/x/note.md'")
        runHook_options]).
Proof. reflexivity. Qed.

(** C10. For [link], when the captured output contains several texts
    of that form, the success text is the leftmost one: no other starts
    before it, and any that starts at the same place is a prefix of
    it. *)
Theorem link_returns_leftmost_url (env : option str)
    (os : str -> exec_options -> exec_outcome)
    (item : str) (tr : trace) (stdout v : str) (j : nat) :
  os (command_line env (link_args item)) runHook_options = Exited0 stdout ->
  is_hook_url v = true -> occurs_at j v stdout ->
  exists u i,
    fst (hookmark_link env os item tr) = Ok (Response [Text u] None) /\
    is_hook_url u = true /\ occurs_at i u stdout /\
    (forall v' j',
       is_hook_url v' = true -> occurs_at j' v' stdout ->
       (i <= j')%nat /\ (j' = i -> exists w, u = v' ++ w)).
Proof.
  intros H Hv Hocc.
  destruct (extractHookUrl_leftmost_longest _ _ _ Hv Hocc)
    as (u & i & Hu & Hurl & Hi & Hleft).
  exists u, i. split; [|split; [|split]]; try assumption.
  now rewrite (hookmark_link_url env os item tr _ _ H Hu Hurl).
Qed.

Lemma link_returns_leftmost_url_witness :
  is_hook_url (lit "hook://b/2") = true /\
  occurs_at 15 (lit "hook://b/2") (lit "hook://a/1 and hook://b/2") /\
  exists u i,
    fst (hookmark_link None (fun _ _ => Exited0 (lit "hook://a/1 and hook://b/2"))
           (lit "x") [])
      = Ok (Response [Text u] None) /\
    occurs_at i u (lit "hook://a/1 and hook://b/2") /\ (i <= 15)%nat.
Proof.
  assert (Hocc : occurs_at 15 (lit "hook://b/2") (lit "hook://a/1 and hook://b/2")).
  { exists (lit "hook://a/1 and "), []. split; reflexivity. }
  split; [reflexivity|]. split; [exact Hocc|].
  destruct (link_returns_leftmost_url None
              (fun _ _ => Exited0 (lit "hook://a/1 and hook://b/2"))
              (lit "x") [] _ (lit "hook://b/2") 15 eq_refl eq_refl Hocc)
    as (u & i & Hrun & _ & Hi & Hleft).
  exists u, i. split; [exact Hrun|]. split; [exact Hi|].
  exact (proj1 (Hleft (lit "hook://b/2") 15%nat eq_refl Hocc)).
Defined.

Example link_two_urls :
  fst (hookmark_link None (fun _ _ => Exited0 (lit "hook://a/1 and hook://b/2"))
         (lit "x") [])
  = Ok (Response [Text (lit "hook://a/1")] None).
Proof. reflexivity. Qed.

(** * Further properties of the invoker and the handlers *)

(** ** More on trimming *)

Lemma dropWhile_fixed (p : char -> bool) (s : str) :
  (forall c, hd_error s = Some c -> p c = false) -> dropWhile p s = s.
Proof.
  destruct s as [|c s]; [reflexivity|]. intro H. cbn [dropWhile].
  now rewrite (H c eq_refl).
Qed.

(** A string that neither starts nor ends with white space is left
    alone. *)
Lemma trim_fixed (s : str) :
  (forall c, hd_error s = Some c -> is_ws c = false) ->
  (forall c, hd_error (rev s) = Some c -> is_ws c = false) ->
  trim s = s.
Proof.
  intros Hh Hl. unfold trim, trimStart. rewrite (dropWhile_fixed _ _ Hh).
  unfold trimEnd. rewrite (dropWhile_fixed _ _ Hl). apply rev_involutive.
Qed.

Lemma trim_idem (s : str) : trim (trim s) = trim s.
Proof.
  destruct (trim_spec s) as (l & r & _ & _ & _ & Hh & Hl).
  now apply trim_fixed.
Qed.

Lemma trim_empty_iff (s : str) : trim s = [] <-> forallb is_ws s = true.
Proof.
  split; [|apply trim_blank].
  intro H. destruct (trim_spec s) as (l & r & Hs & Hl & Hr & _).
  rewrite H in Hs. cbn [app] in Hs. rewrite Hs, forallb_app.
  now rewrite Hl, Hr.
Qed.

Lemma generic_message_fixed (a : str) :
  trim (lit "hook " ++ a ++ lit " failed") = lit "hook " ++ a ++ lit " failed".
Proof.
  apply trim_fixed.
  - intros c [= <-]. reflexivity.
  - rewrite !rev_app_distr. intros c [= <-]. reflexivity.
Qed.

(** ** The command line as the shell sees it *)

Lemma scalars_unfold (c : char) (t : str) :
  scalars (c :: t) =
  if is_high c then
    match t with
    | d :: t' =>
        if is_low d
        then (65536 + (c - 55296) * 1024 + (d - 56320))%N :: scalars t'
        else 65533%N :: scalars t
    | [] => [65533%N]
    end
  else if is_low c then 65533%N :: scalars t
  else c :: scalars t.
Proof. reflexivity. Qed.

Lemma scalars_cons_plain (c : char) (t : str) :
  is_high c = false -> is_low c = false -> scalars (c :: t) = c :: scalars t.
Proof. intros Hh Hl. now rewrite scalars_unfold, Hh, Hl. Qed.

(** A high surrogate that no low surrogate follows is replaced. *)
Lemma scalars_high_lone (c : char) (l : str) :
  is_high c = true ->
  (forall d, hd_error l = Some d -> is_low d = false) ->
  scalars (c :: l) = 65533%N :: scalars l.
Proof.
  intros Hh Hl. rewrite scalars_unfold, Hh. destruct l as [|d l']; [reflexivity|].
  now rewrite (Hl d eq_refl).
Qed.

Lemma ascii_plain (c : char) :
  (c < 128)%N -> is_high c = false /\ is_low c = false.
Proof.
  intro H. unfold is_high, is_low.
  destruct (N.leb_spec 55296 c); [lia|].
  destruct (N.leb_spec 56320 c); [lia|]. now split.
Qed.

(** A character that is no surrogate separates what is before it from
    what is after it. *)
Lemma scalars_app_plain (a : str) (c : char) (b : str) :
  is_high c = false -> is_low c = false ->
  scalars (a ++ c :: b) = scalars a ++ c :: scalars b.
Proof.
  intros Hh Hl.
  assert (H : forall n a, (List.length a <= n)%nat ->
                          scalars (a ++ c :: b) = scalars a ++ c :: scalars b).
  { induction n as [|n IH]; intros a' Hlen.
    - destruct a'; [|simpl in Hlen; lia]. now apply scalars_cons_plain.
    - destruct a' as [|x a1]; [now apply scalars_cons_plain|].
      cbn [List.length] in Hlen. cbn [app].
      destruct (is_high x) eqn:Hx.
      + destruct a1 as [|y a2].
        * cbn [app]. rewrite (scalars_high_lone x (c :: b) Hx).
          -- rewrite (scalars_cons_plain c b Hh Hl).
             now rewrite (scalars_unfold x []), Hx.
          -- intros d [= <-]. exact Hl.
        * cbn [app List.length] in *.
          rewrite (scalars_unfold x (y :: a2 ++ c :: b)),
                  (scalars_unfold x (y :: a2)), Hx.
          destruct (is_low y) eqn:Hy.
          -- rewrite (IH a2) by lia. reflexivity.
          -- change (y :: a2 ++ c :: b) with ((y :: a2) ++ c :: b).
             rewrite (IH (y :: a2)) by (cbn [List.length]; lia). reflexivity.
      + rewrite (scalars_unfold x (a1 ++ c :: b)), (scalars_unfold x a1), Hx.
        rewrite (IH a1) by lia. now destruct (is_low x). }
  exact (H (List.length a) a (le_n _)).
Qed.

Lemma replace_all_quote (t : str) :
  replace_all SQUOTE (lit "'\''") (SQUOTE :: t)
  = lit "'\''" ++ replace_all SQUOTE (lit "'\''") t.
Proof. reflexivity. Qed.

Lemma replace_all_other (x : char) (t : str) :
  x <> SQUOTE ->
  replace_all SQUOTE (lit "'\''") (x :: t)
  = x :: replace_all SQUOTE (lit "'\''") t.
Proof.
  intro H. cbn [replace_all]. unfold char_eqb.
  apply N.eqb_neq in H. now rewrite H.
Qed.

Lemma replace_all_app_clean (h t : str) :
  Forall (fun b => b <> SQUOTE) h ->
  replace_all SQUOTE (lit "'\''") (h ++ t)
  = h ++ replace_all SQUOTE (lit "'\''") t.
Proof.
  induction 1 as [|x h Hx _ IH]; [reflexivity|].
  cbn [app]. rewrite (replace_all_other _ _ Hx). now rewrite IH.
Qed.

Lemma low_not_quote (y : char) : is_low y = true -> y <> SQUOTE.
Proof. intros H ->. discriminate H. Qed.

Lemma high_not_quote (x : char) : is_high x = true -> x <> SQUOTE.
Proof. intros H ->. discriminate H. Qed.

Lemma scalars_quote (t : str) : scalars (SQUOTE :: t) = SQUOTE :: scalars t.
Proof. reflexivity. Qed.

Lemma scalars_escaped_quote (t : str) :
  scalars (lit "'\''" ++ t) = lit "'\''" ++ scalars t.
Proof. reflexivity. Qed.

(** Escaping the quotes and reading code points can be done in either
    order. *)
Lemma scalars_replace_all (s : str) :
  scalars (replace_all SQUOTE (lit "'\''") s)
  = replace_all SQUOTE (lit "'\''") (scalars s).
Proof.
  assert (H : forall n s', (List.length s' <= n)%nat ->
                scalars (replace_all SQUOTE (lit "'\''") s')
                = replace_all SQUOTE (lit "'\''") (scalars s')).
  { induction n as [|n IH]; intros s' Hlen.
    - destruct s'; [reflexivity | simpl in Hlen; lia].
    - destruct s' as [|x s1]; [reflexivity|]. cbn [List.length] in Hlen.
      destruct (N.eq_dec x SQUOTE) as [->|Hq].
      + rewrite replace_all_quote, scalars_escaped_quote, scalars_quote.
        rewrite (IH s1) by lia. symmetry. apply replace_all_quote.
      + rewrite (replace_all_other _ _ Hq).
        destruct (is_high x) eqn:Hx.
        * destruct s1 as [|y s2].
          { cbn [replace_all]. rewrite (scalars_unfold x []), Hx. reflexivity. }
          cbn [List.length] in Hlen.
          destruct (is_low y) eqn:Hy.
          -- rewrite (replace_all_other _ _ (low_not_quote _ Hy)).
             rewrite !(scalars_unfold x (y :: _)), Hx, Hy.
             rewrite (IH s2) by lia.
             rewrite replace_all_other; [reflexivity|].
             unfold SQUOTE. lia.
          -- rewrite (scalars_high_lone x _ Hx).
             ++ rewrite (IH (y :: s2)) by (cbn [List.length]; lia).
                rewrite (scalars_high_lone x (y :: s2) Hx)
                  by (intros d [= <-]; exact Hy).
                rewrite (replace_all_other 65533%N _); [reflexivity | discriminate].
             ++ intros d. cbn [replace_all]. unfold char_eqb.
                destruct (N.eqb y SQUOTE); intros [= <-]; [reflexivity | exact Hy].
        * rewrite (scalars_unfold x (replace_all _ _ s1)), (scalars_unfold x s1), Hx.
          rewrite (IH s1) by lia.
          destruct (is_low x) eqn:Hl.
          -- rewrite (replace_all_other 65533%N _); [reflexivity | discriminate].
          -- now rewrite (replace_all_other _ _ Hq). }
  exact (H (List.length s) s (le_n _)).
Qed.

(** No byte of the encoding of another code point is a single quote. *)
Lemma encode_scalar_clean (cp : N) :
  cp <> SQUOTE -> Forall (fun b => b <> SQUOTE) (encode_scalar cp).
Proof.
  intro H. unfold encode_scalar, SQUOTE in *.
  destruct (N.ltb_spec cp 128); [now constructor|].
  destruct (N.ltb_spec cp 2048); [|destruct (N.ltb_spec cp 65536)];
    repeat match goal with
           | |- context [N.modulo ?a ?b] =>
               let r := fresh "r" in generalize (N.modulo a b); intro r
           | |- context [N.div ?a ?b] =>
               let q := fresh "q" in generalize (N.div a b); intro q
           end;
    repeat (apply Forall_cons; [lia|]); apply Forall_nil.
Qed.

Lemma encode_replace_all (l : list N) :
  flat_map encode_scalar (replace_all SQUOTE (lit "'\''") l)
  = replace_all SQUOTE (lit "'\''") (flat_map encode_scalar l).
Proof.
  induction l as [|c l IH]; [reflexivity|].
  destruct (N.eq_dec c SQUOTE) as [->|Hq].
  - rewrite replace_all_quote, flat_map_app.
    transitivity (lit "'\''" ++ replace_all SQUOTE (lit "'\''")
                                 (flat_map encode_scalar l)); [|reflexivity].
    f_equal. exact IH.
  - rewrite (replace_all_other _ _ Hq). cbn [flat_map].
    rewrite (replace_all_app_clean _ _ (encode_scalar_clean c Hq)).
    now rewrite IH.
Qed.

Lemma utf8_app_ascii (a : str) (c : char) (b : str) :
  (c < 128)%N -> utf8 (a ++ c :: b) = utf8 a ++ c :: utf8 b.
Proof.
  intro Hc. destruct (ascii_plain c Hc) as [Hh Hl]. unfold utf8.
  rewrite (scalars_app_plain a c b Hh Hl), flat_map_app. cbn [flat_map].
  unfold encode_scalar at 2. apply N.ltb_lt in Hc. now rewrite Hc.
Qed.

(** Escaping a string and encoding it can be done in either order. *)
Lemma utf8_shellEscape (s : str) : utf8 (shellEscape s) = shellEscape (utf8 s).
Proof.
  unfold shellEscape. change (lit "'") with [39%N].
  change ([39%N] ++ ?x ++ [39%N]) with ([] ++ 39%N :: (x ++ 39%N :: [])).
  rewrite !utf8_app_ascii by reflexivity.
  unfold utf8 at 2. rewrite scalars_replace_all, encode_replace_all.
  reflexivity.
Qed.

Lemma utf8_join_escaped (xs : list str) :
  utf8 (join (lit " ") (map shellEscape xs))
  = join (lit " ") (map shellEscape (map utf8 xs)).
Proof.
  induction xs as [|x xs IH]; [reflexivity|].
  destruct xs as [|y ys]; [apply utf8_shellEscape|].
  change (join (lit " ") (map shellEscape (x :: y :: ys)))
    with (shellEscape x ++ 32%N :: join (lit " ") (map shellEscape (y :: ys))).
  rewrite utf8_app_ascii by reflexivity. rewrite IH, utf8_shellEscape.
  reflexivity.
Qed.

Lemma utf8_ascii (s : str) : Forall (fun c => (c < 128)%N) s -> utf8 s = s.
Proof.
  induction s as [|c t IH]; intro H; [reflexivity|].
  pose proof (utf8_app_ascii [] c t (Forall_inv H)) as E. cbn [app] in E.
  rewrite E, (IH (Forall_inv_tail H)). reflexivity.
Qed.

Lemma map_utf8_ascii (l : list str) :
  Forall (Forall (fun c => (c < 128)%N)) l -> map utf8 l = l.
Proof.
  induction l as [|a l IH]; intro H; [reflexivity|].
  cbn [map]. now rewrite (utf8_ascii a (Forall_inv H)), (IH (Forall_inv_tail H)).
Qed.

(** Whatever the arguments contain (quotes, blanks, characters the
    shell gives a meaning to), unless [execSync] refuses the command
    [runHook] starts one process, and the shell splits the command
    line it receives, the UTF-8 encoding of the command, into the
    encodings of the binary path and of each argument.  Arguments of
    ASCII characters arrive as they are. *)
Theorem runHook_command_roundtrip (env : option str)
    (os : str -> exec_options -> exec_outcome)
    (args : list str) (tr : trace) :
  (forall m, os (command_line env args) runHook_options <> Refused m) ->
  exists cmd,
    snd (runHook env os args tr) = tr ++ [Spawn cmd runHook_options] /\
    Sh.words (utf8 cmd) = Some (map utf8 (HOOK_CLI env :: args)) /\
    (Forall (Forall (fun c => (c < 128)%N)) (HOOK_CLI env :: args) ->
     Sh.words (utf8 cmd) = Some (HOOK_CLI env :: args)).
Proof.
  intro Hos. exists (command_line env args).
  assert (Hw : Sh.words (utf8 (command_line env args))
               = Some (map utf8 (HOOK_CLI env :: args))).
  { unfold command_line. rewrite utf8_join_escaped. unfold Sh.words.
    now rewrite ShFacts.lex_join_escaped by discriminate. }
  split; [|split].
  - rewrite runHook_trace. destruct (os _ _) as [out|e|m]; try reflexivity.
    now elim (Hos m).
  - exact Hw.
  - intro Hascii. rewrite Hw. f_equal. now apply map_utf8_ascii.
Qed.

Lemma runHook_command_roundtrip_witness :
  exists cmd,
    snd (runHook None (fun _ _ => Exited0 []) [lit "clip"; lit "it's; rm -rf $HOME"] [])
      = [Spawn cmd runHook_options] /\
    Sh.words (utf8 cmd)
      = Some [lit "/opt/homebrew/lib/ruby/gems/4.0.0/bin/hook"; lit "clip";
              lit "it's; rm -rf $HOME"].
Proof.
  destruct (runHook_command_roundtrip None (fun _ _ => Exited0 [])
              [lit "clip"; lit "it's; rm -rf $HOME"] []
              ltac:(intros m; discriminate)) as (cmd & Htr & Hw & _).
  exists cmd. split; [exact Htr | exact Hw].
Defined.

(** A string without single quotes is only wrapped in single quotes. *)
Theorem shellEscape_plain (s : str) :
  (forall c, In c s -> c <> SQUOTE) ->
  shellEscape s = SQUOTE :: s ++ [SQUOTE].
Proof.
  intro H. unfold shellEscape. change (lit "'") with [SQUOTE].
  cbn [app]. f_equal. f_equal.
  induction s as [|c s IH]; [reflexivity|].
  cbn [replace_all]. unfold char_eqb.
  destruct (N.eqb_spec c SQUOTE) as [Hc|_].
  - exfalso. apply (H c); [now left | exact Hc].
  - cbn [app]. f_equal. apply IH. intros x Hx. apply H. now right.
Qed.

Lemma shellEscape_plain_witness :
  (forall c, In c (lit "a b") -> c <> SQUOTE) /\
  shellEscape (lit "a b") = lit "'a b'".
Proof.
  assert (H : forall c, In c (lit "a b") -> c <> SQUOTE).
  { intros c [<- | [<- | [<- | []]]]; discriminate. }
  split; [exact H|]. exact (shellEscape_plain (lit "a b") H).
Defined.

(** Distinct arguments have distinct escaped forms. *)
Theorem shellEscape_injective (a b : str) :
  shellEscape a = shellEscape b -> a = b.
Proof.
  intro H.
  pose proof (ShFacts.lex_shellEscape a [] []) as Ha.
  pose proof (ShFacts.lex_shellEscape b [] []) as Hb.
  rewrite H, Hb in Ha. cbn [Sh.lex Sh.flush app] in Ha. now injection Ha.
Qed.

Lemma shellEscape_injective_witness :
  shellEscape (lit "it's") = shellEscape (lit "it's") /\ lit "it's" = lit "it's".
Proof.
  split; [reflexivity|].
  exact (shellEscape_injective (lit "it's") (lit "it's") eq_refl).
Defined.

(** ** What [runHook] returns and throws *)

(** On success the returned text has no white space left to trim, and
    it is empty exactly when the child wrote nothing but white
    space. *)
Theorem runHook_output_trimmed (env : option str)
    (os : str -> exec_options -> exec_outcome)
    (args : list str) (tr : trace) (out : str) :
  os (command_line env args) runHook_options = Exited0 out ->
  exists o,
    fst (runHook env os args tr) = Ok o /\
    trim o = o /\
    (o = [] <-> forallb is_ws out = true).
Proof.
  intro H. exists (trim out). rewrite (runHook_exit0 env os args tr out H).
  split; [reflexivity|]. split; [apply trim_idem | apply trim_empty_iff].
Qed.

Lemma runHook_output_trimmed_witness :
  exists o,
    fst (runHook None (fun _ _ => Exited0 [9; 10; 32]%N) [lit "list"] []) = Ok o /\
    o = [].
Proof.
  destruct (runHook_output_trimmed None (fun _ _ => Exited0 [9; 10; 32]%N)
              [lit "list"] [] [9; 10; 32]%N eq_refl) as (o & Hrun & _ & Hempty).
  exists o. split; [exact Hrun|]. apply Hempty. reflexivity.
Defined.

(** A value thrown by [execSync] that carries no [stderr] property is
    rethrown as it is, and the handler reports its message. *)
Theorem runHook_rethrows (env : option str)
    (os : str -> exec_options -> exec_outcome)
    (c : call) (tr : trace) (e : thrown) :
  (forall stderr stdout message, e <> ExecError stderr stdout message) ->
  os (command_line env (argv c)) runHook_options = Raised e ->
  fst (runHook env os (argv c) tr) = Throw e /\
  fst (handle env os c tr)
    = Ok (Response [Text (lit "Error: " ++ error_message e)] (Some true)).
Proof.
  intros Hne H.
  assert (Hrun : runHook env os (argv c) tr
                 = (Throw e, tr ++ [Spawn (command_line env (argv c)) runHook_options])).
  { unfold runHook, try_catch, bind, execSync. rewrite H.
    destruct e as [a b m| |]; [now elim (Hne a b m) | reflexivity | reflexivity]. }
  split; [now rewrite Hrun|].
  now rewrite (handle_catches env os c tr _ e Hrun).
Qed.

Lemma runHook_rethrows_witness :
  fst (handle None (fun _ _ => Raised (PlainError (lit "spawnSync /bin/sh ENOENT")))
         (Link (lit "a")) [])
  = Ok (Response [Text (lit "Error: spawnSync /bin/sh ENOENT")] (Some true)).
Proof.
  apply (proj2 (runHook_rethrows None
                  (fun _ _ => Raised (PlainError (lit "spawnSync /bin/sh ENOENT")))
                  (Link (lit "a")) [] (PlainError (lit "spawnSync /bin/sh ENOENT"))
                  ltac:(intros a b m; discriminate) eq_refl)).
Defined.

(** The message of a failure [runHook] raises for a failed or timed
    out child is never empty and has no white space around it. *)
Theorem runHook_failure_nonblank (env : option str)
    (os : str -> exec_options -> exec_outcome)
    (args : list str) (tr : trace) (stderr stdout message : str) :
  os (command_line env args) runHook_options
    = Raised (ExecError stderr stdout message) ->
  exists text,
    fst (runHook env os args tr) = Throw (PlainError text) /\
    text <> [] /\ trim text = text.
Proof.
  intro H. eexists. rewrite (runHook_exec_error env os args tr _ _ _ H).
  split; [reflexivity|].
  destruct (trim (or_else stderr (or_else message []))) as [|c d] eqn:E.
  - rewrite or_else_empty. split; [discriminate | apply generic_message_fixed].
  - cbn [or_else truthy]. split; [discriminate|]. rewrite <- E. apply trim_idem.
Qed.

Lemma runHook_failure_nonblank_witness :
  exists text,
    fst (runHook None (fun _ _ => Raised (ExecError [10]%N [] [32]%N)) [] [])
      = Throw (PlainError text) /\
    text <> [] /\ trim text = text.
Proof.
  exact (runHook_failure_nonblank None
           (fun _ _ => Raised (ExecError [10]%N [] [32]%N)) [] []
           [10]%N [] [32]%N eq_refl).
Defined.

(** ** Envelopes *)

Lemma arg0_argv (c : call) : arg0 (argv c) = token c.
Proof. now rewrite argv_shape. Qed.

Lemma or_else_nonempty (a b : str) : b <> [] -> or_else a b <> [].
Proof. destruct a; [now rewrite or_else_empty | discriminate]. Qed.

Lemma failure_text_cases (stderr message generic : str) :
  let text := or_else (trim (or_else stderr (or_else message []))) generic in
  (trim stderr <> [] -> text = trim stderr) /\
  (stderr = [] -> trim message <> [] -> text = trim message) /\
  ((stderr <> [] /\ trim stderr = []) \/ (stderr = [] /\ trim message = []) ->
   text = generic).
Proof.
  cbn zeta. split; [|split].
  - intro Hne. destruct stderr as [|c s]; [now elim Hne|].
    cbn [or_else truthy]. apply or_else_truthy. now apply truthy_nonempty.
  - intros -> Hne. rewrite or_else_empty.
    destruct message as [|c s]; [now elim Hne|].
    cbn [or_else truthy]. apply or_else_truthy. now apply truthy_nonempty.
  - intros [[Hne Hblank] | [-> Hblank]].
    + destruct stderr as [|c s]; [now elim Hne|].
      cbn [or_else truthy]. now rewrite Hblank.
    + rewrite or_else_empty. destruct message as [|c s]; [reflexivity|].
      cbn [or_else truthy]. now rewrite Hblank.
Qed.

(** For each operation, a failed or timed out child is reported as
    [Error: ] followed by the trimmed error stream when that is not
    blank, by the trimmed message of the execution error when the
    error stream is empty, and otherwise by [hook <token> failed] with
    the operation's own sub-command token. *)
Theorem handler_error_text (env : option str)
    (os : str -> exec_options -> exec_outcome)
    (c : call) (tr : trace) (stderr stdout message : str) :
  os (command_line env (argv c)) runHook_options
    = Raised (ExecError stderr stdout message) ->
  exists t,
    fst (handle env os c tr)
      = Ok (Response [Text (lit "Error: " ++ t)] (Some true)) /\
    (trim stderr <> [] -> t = trim stderr) /\
    (stderr = [] -> trim message <> [] -> t = trim message) /\
    ((stderr <> [] /\ trim stderr = []) \/ (stderr = [] /\ trim message = []) ->
     t = lit "hook " ++ token c ++ lit " failed").
Proof.
  intro H. eexists. split.
  - rewrite (handle_catches env os c tr _ _
               (runHook_exec_error env os (argv c) tr _ _ _ H)).
    reflexivity.
  - rewrite arg0_argv. apply failure_text_cases.
Qed.

Lemma handler_error_text_witness :
  fst (handle None (fun _ _ => Raised (ExecError [10]%N [] (lit "Command failed")))
         (Frontmost (lit "Mail") false) [])
  = Ok (Response [Text (lit "Error: hook from failed")] (Some true)).
Proof.
  destruct (handler_error_text None
              (fun _ _ => Raised (ExecError [10]%N [] (lit "Command failed")))
              (Frontmost (lit "Mail") false) [] [10]%N [] (lit "Command failed")
              eq_refl) as (t & Hrun & _ & _ & Hgeneric).
  rewrite Hrun, Hgeneric; [reflexivity|].
  left. split; [discriminate | reflexivity].
Defined.

(** Every handler run ends in an envelope with exactly one text item,
    which is not empty, and [isError] is set exactly when [runHook]
    threw. *)
Theorem handle_response_shape (env : option str)
    (os : str -> exec_options -> exec_outcome) (c : call) (tr : trace) :
  exists t,
    fst (handle env os c tr)
      = Ok (Response [Text t]
              (match fst (runHook env os (argv c) tr) with
               | Ok _ => None
               | Throw _ => Some true
               end)) /\
    t <> [].
Proof.
  destruct (runHook env os (argv c) tr) as [[out|e] tr'] eqn:H.
  - cbn [fst].
    destruct c as [item | a b | item f fo | q f n fo | a b | s d | name md];
      cbn [argv] in H; unfold_handler; rewrite H; cbn [fst].
    + destruct (extractHookUrl out) as [[|x u]|]; cbn [truthy_opt truthy];
        eexists; (split; [reflexivity|]);
        try discriminate; apply or_else_nonempty; discriminate.
    + eexists; split; [reflexivity|]. apply or_else_nonempty. discriminate.
    + destruct out as [|x out]; cbn [truthy negb].
      * eexists; split; [reflexivity|].
        destruct item as [[|y i]|]; discriminate.
      * eexists; split; [reflexivity | discriminate].
    + destruct out as [|x out]; cbn [truthy negb];
        eexists; (split; [reflexivity | discriminate]).
    + eexists; split; [reflexivity|]. apply or_else_nonempty. discriminate.
    + eexists; split; [reflexivity|]. apply or_else_nonempty. discriminate.
    + destruct out as [|x out]; cbn [truthy negb];
        eexists; (split; [reflexivity | discriminate]).
  - rewrite (handle_catches env os c tr tr' e H). cbn [fst].
    eexists; split; [reflexivity | discriminate].
Qed.

(** ** Output that is passed through *)

(** When the child printed something, the success text is its trimmed
    output, unchanged; for [link], when no URL is found in it. *)
Theorem nonempty_output_passthrough (env : option str)
    (os : str -> exec_options -> exec_outcome)
    (c : call) (tr : trace) (out : str) :
  os (command_line env (argv c)) runHook_options = Exited0 out ->
  trim out <> [] ->
  match c with Link _ => extractHookUrl out = None | _ => True end ->
  fst (handle env os c tr) = Ok (Response [Text (trim out)] None).
Proof.
  intros H Hne Hlink. apply truthy_nonempty in Hne.
  pose proof (runHook_exit0 env os (argv c) tr out H) as Hrun.
  destruct c as [item | a b | item f fo | q f n fo | a b | s d | name md];
    cbn [argv] in Hrun; unfold_handler; rewrite Hrun; cbn [fst];
    rewrite ?(or_else_truthy _ _ Hne), ?Hne; try reflexivity.
  rewrite extractHookUrl_trim, Hlink. reflexivity.
Qed.

Lemma nonempty_output_passthrough_witness :
  fst (handle None (fun _ _ => Exited0 (lit "/Users/x/a.md "))
         (List_ (Some (lit "b.md")) Format.paths false) [])
  = Ok (Response [Text (lit "/Users/x/a.md")] None).
Proof.
  apply (nonempty_output_passthrough None (fun _ _ => Exited0 (lit "/Users/x/a.md "))
           (List_ (Some (lit "b.md")) Format.paths false) [] (lit "/Users/x/a.md ")
           eq_refl).
  - discriminate.
  - exact I.
Defined.

Lemma includes_app2 (a x b y c : str) : includes (a ++ x ++ b ++ y ++ c) y.
Proof.
  replace (a ++ x ++ b ++ y ++ c) with ((a ++ x ++ b) ++ y ++ c)
    by now rewrite <- !app_assoc.
  apply includes_app.
Qed.

(** For each of the seven operations, when the child printed nothing
    but white space the success text is a synthesized, non-empty
    message that names every positional operand of the call. *)
Theorem blank_output_message (env : option str)
    (os : str -> exec_options -> exec_outcome)
    (c : call) (tr : trace) (out : str) :
  os (command_line env (argv c)) runHook_options = Exited0 out ->
  forallb is_ws out = true ->
  exists msg,
    fst (handle env os c tr) = Ok (Response [Text msg] None) /\
    msg <> [] /\
    Forall (fun a => includes msg a) (operands c).
Proof.
  intros H Hblank. apply trim_blank in Hblank.
  pose proof (runHook_exit0 env os (argv c) tr out H) as Hrun.
  rewrite Hblank in Hrun.
  destruct c as [item | a b | item f fo | q f n fo | a b | s d | name md];
    cbn [argv operands] in *; unfold_handler; rewrite Hrun; cbn [fst];
    try (eexists; split; [reflexivity|]; split; [discriminate|];
         repeat constructor; solve [apply includes_app | apply includes_app2]).
  eexists; split; [reflexivity|]. split.
  - destruct item as [[|y i]|]; discriminate.
  - destruct item as [[|y i]|]; cbn [given truthy]; repeat constructor.
    apply includes_app.
Qed.

Lemma blank_output_message_witness :
  exists msg,
    fst (handle None (fun _ _ => Exited0 [10]%N)
           (Connect (lit "a.pdf") (lit "b.pdf")) [])
      = Ok (Response [Text msg] None) /\
    includes msg (lit "a.pdf") /\ includes msg (lit "b.pdf").
Proof.
  destruct (blank_output_message None (fun _ _ => Exited0 [10]%N)
              (Connect (lit "a.pdf") (lit "b.pdf")) [] [10]%N eq_refl eq_refl)
    as (msg & Hrun & _ & Hall).
  exists msg. split; [exact Hrun|].
  cbn [operands] in Hall.
  split.
  - exact (Forall_inv Hall).
  - exact (Forall_inv (Forall_inv_tail Hall)).
Defined.

(** ** More on [extractHookUrl] *)

(** [extractHookUrl] gives [null] exactly when the text contains
    nothing of the form [hook://] followed by a character that is
    neither white space nor a quote. *)
Theorem extractHookUrl_none_iff (s : str) :
  extractHookUrl s = None <->
  (forall v, is_hook_url v = true -> ~ includes s v).
Proof.
  split.
  - intros Hnone v Hv (j & a & b & Hs & _).
    destruct (regex_match_complete a v b Hv) as [u Hu].
    rewrite <- Hs in Hu. unfold extractHookUrl in Hnone.
    rewrite Hnone in Hu. discriminate.
  - intro Hno. destruct (extractHookUrl s) as [u|] eqn:Hu; [|reflexivity].
    exfalso. destruct (regex_match_sound _ _ Hu) as (pre & post & Hs & Hm & _).
    destruct (match_here_sound _ _ Hm) as (_ & _ & Hurl & _).
    apply (Hno u Hurl). exists (List.length pre), pre, post. now split.
Qed.

Lemma extractHookUrl_none_iff_witness :
  extractHookUrl (lit "Copied Hook URL for 'a' to clipboard") = None /\
  ~ includes (lit "Copied Hook URL for 'a' to clipboard") (lit "hook://a").
Proof.
  split; [reflexivity|].
  exact (proj1 (extractHookUrl_none_iff (lit "Copied Hook URL for 'a' to clipboard"))
           eq_refl (lit "hook://a") eq_refl).
Defined.

Lemma url_char_clean (c : char) :
  url_char c = true -> is_ws c = false /\ c <> SQUOTE /\ c <> DQUOTE.
Proof.
  unfold url_char, SQUOTE, DQUOTE. intro H. apply negb_true_iff in H.
  apply orb_false_iff in H as [H Hd]. apply orb_false_iff in H as [Hw Hs].
  apply N.eqb_neq in Hs, Hd. now repeat split.
Qed.

(** What [extractHookUrl] returns starts with [hook://], goes on with
    at least one more character, holds no white space and no quote,
    and is returned again when the extraction is applied to it. *)
Theorem extractHookUrl_clean (s u : str) :
  extractHookUrl s = Some u ->
  (exists body, u = lit "hook://" ++ body /\ body <> []) /\
  Forall (fun c => is_ws c = false /\ c <> SQUOTE /\ c <> DQUOTE) u /\
  extractHookUrl u = Some u.
Proof.
  intro Hu. destruct (regex_match_sound _ _ Hu) as (pre & post & _ & Hm & _).
  destruct (match_here_sound _ _ Hm) as (_ & _ & Hurl & _).
  split; [|split].
  - destruct (is_hook_url_inv _ Hurl) as (c & body & -> & _).
    exists (c :: body). split; [reflexivity | discriminate].
  - destruct (is_hook_url_inv _ Hurl) as (c & body & -> & Hc & Hb).
    apply Forall_app. split.
    + repeat constructor; discriminate.
    + rewrite forallb_forall in Hb. constructor; [now apply url_char_clean|].
      apply Forall_forall. intros x Hx. apply url_char_clean. now apply Hb.
  - destruct (regex_match_complete [] u [] Hurl) as [u' Hu'].
    cbn [app] in Hu'. rewrite app_nil_r in Hu'.
    change (extractHookUrl u = Some u') in Hu'.
    rewrite Hu'. f_equal. now apply (extractHookUrl_whole u u' Hu').
Qed.

Lemma extractHookUrl_clean_witness :
  extractHookUrl (lit "see 'hook://file/AbC123' here") = Some (lit "hook://file/AbC123") /\
  extractHookUrl (lit "hook://file/AbC123") = Some (lit "hook://file/AbC123").
Proof.
  split; [reflexivity|].
  exact (proj2 (proj2 (extractHookUrl_clean (lit "see 'hook://file/AbC123' here")
                         (lit "hook://file/AbC123") eq_refl))).
Defined.

(** ** More on the schemas *)

Lemma js_eqb_eq (a b : str) : Js.eqb a b = true -> a = b.
Proof.
  revert b; induction a as [|x a IH]; intros [|y b] H; try discriminate H.
  - reflexivity.
  - cbn [Js.eqb] in H. apply andb_prop in H as [Hx Hab].
    apply N.eqb_eq in Hx. subst y. f_equal. now apply IH.
Qed.

(** The [format] enumeration accepts exactly the four spellings
    [paths], [hooks], [markdown] and [verbose], each as the member of
    that name, and the accepted member is put on the command line in
    that same spelling. *)
Theorem format_enum_exact (d f : Format.t) (s : str) :
  Zod.format_default d (Some (JString s)) = Some f <->
  ((s = lit "paths" /\ f = Format.paths) \/
   (s = lit "hooks" /\ f = Format.hooks) \/
   (s = lit "markdown" /\ f = Format.markdown) \/
   (s = lit "verbose" /\ f = Format.verbose)) /\
  list_args None f false = [lit "list"; lit "-o"; s] /\
  (forall q, search_args q f false false = [lit "find"; lit "-o"; s; q]).
Proof.
  cbn [Zod.format_default]. split.
  - unfold Format.of_str. intro H. apply find_some in H as [_ H].
    apply js_eqb_eq in H. subst s.
    destruct f; (split; [|split; [reflexivity | intro q; reflexivity]]);
      [left | right; left | right; right; left | right; right; right];
      now split.
  - intros [[[-> ->] | [[-> ->] | [[-> ->] | [-> ->]]]] _]; reflexivity.
Qed.

Lemma format_enum_exact_witness :
  Zod.format_default Format.paths (Some (JString (lit "verbose")))
    = Some Format.verbose /\
  list_args None Format.verbose false = [lit "list"; lit "-o"; lit "verbose"].
Proof.
  split; [reflexivity|].
  exact (proj1 (proj2 (proj1 (format_enum_exact Format.paths Format.verbose
                                (lit "verbose")) eq_refl))).
Defined.

Lemma string_min_some (v : option json) (s : str) :
  Zod.string_min 1 v = Some s -> v = Some (JString s) /\ s <> [].
Proof.
  destruct v as [[| | |x| |]|]; try discriminate. cbn [Zod.string_min].
  destruct x as [|c x]; cbn [List.length Nat.leb]; [discriminate|].
  intros [= <-]. split; [reflexivity | discriminate].
Qed.

Lemma format_to_str_nonempty (f : Format.t) : Format.to_str f <> [].
Proof. destruct f; discriminate. Qed.

Ltac invert_schema H :=
  cbn [inputSchema] in H;
  repeat match type of H with
         | obind ?m _ = Some _ =>
             let E := fresh "E" in
             destruct m eqn:E; cbn [obind] in H; [|discriminate H]
         end;
  injection H as <-.

(** A call is accepted only if each of its required parameters is
    present in the input as a non-empty string. *)
Theorem accepted_required_params (t : tool) (i : raw_input) (c : call) (k : string) :
  inputSchema t i = Some c ->
  In k (required_params t) ->
  exists s, get k i = Some (JString s) /\ s <> [].
Proof.
  intros H Hk.
  destruct t; invert_schema H; cbn [required_params In] in Hk;
    repeat match goal with
           | H : _ \/ _ |- _ => destruct H
           | H : False |- _ => destruct H
           end; subst k;
    match goal with
    | E : Zod.string_min 1 (get ?key i) = Some ?s |- exists _, get ?key i = _ /\ _ =>
        exists s; exact (string_min_some _ _ E)
    end.
Qed.

Lemma accepted_required_params_witness :
  exists s, get "app" [("app"%string, JString (lit "Mail"))] = Some (JString s) /\ s <> [].
Proof.
  apply (accepted_required_params Tool_frontmost
           [("app"%string, JString (lit "Mail"))]
           (Frontmost (lit "Mail") false) "app" eq_refl).
  now left.
Defined.

(** For an accepted call, the sub-command is the one the table at the
    head of the file documents for the tool, and no element of the
    argument vector is the empty string. *)
Theorem accepted_argv (t : tool) (i : raw_input) (c : call) :
  inputSchema t i = Some c ->
  hd_error (argv c) = Some (cli_command t) /\
  Forall (fun a => a <> []) (argv c).
Proof.
  intro H. destruct t; invert_schema H;
    repeat match goal with
           | E : Zod.string_min 1 _ = Some _ |- _ =>
               apply string_min_some in E; destruct E as [_ ?]
           end;
    (split; [rewrite argv_head; reflexivity|]).
  - repeat constructor; (assumption || discriminate).
  - repeat constructor; (assumption || discriminate).
  - rewrite argv_shape. unfold documented_argv.
    cbn [token flags operands flat_map emit app].
    repeat match goal with
           | b : bool |- _ => destruct b
           | o : option str |- _ => destruct o as [[|]|]
           end; cbn [given truthy app emit];
      repeat constructor; (discriminate || apply format_to_str_nonempty).
  - rewrite argv_shape. unfold documented_argv.
    cbn [token flags operands flat_map emit app].
    repeat match goal with
           | b : bool |- _ => destruct b
           end; cbn [app emit];
      repeat constructor;
      (assumption || discriminate || apply format_to_str_nonempty).
  - repeat constructor; (assumption || discriminate).
  - repeat constructor; (assumption || discriminate).
  - rewrite argv_shape. unfold documented_argv.
    cbn [token flags operands flat_map emit app].
    repeat match goal with
           | b : bool |- _ => destruct b
           end; cbn [app emit];
      repeat constructor; (assumption || discriminate).
Qed.

Lemma accepted_argv_witness :
  hd_error (argv (List_ (Some []) Format.paths false)) = Some (lit "list") /\
  Forall (fun a => a <> []) (argv (List_ (Some []) Format.paths false)).
Proof.
  exact (accepted_argv Tool_list [("item"%string, JString [])]
           (List_ (Some []) Format.paths false) eq_refl).
Defined.

(** When [format] is left out, [list] passes [-o paths] and [search]
    passes [-o markdown] to the binary. *)
Theorem default_format_on_command_line (i : raw_input) (c : call) :
  get "format" i = None ->
  (inputSchema Tool_list i = Some c ->
   exists rest, argv c = lit "list" :: lit "-o" :: lit "paths" :: rest) /\
  (inputSchema Tool_search i = Some c ->
   exists rest, argv c = lit "find" :: lit "-o" :: lit "markdown" :: rest).
Proof.
  intro Hf. split; intro H; cbn [inputSchema] in H; rewrite Hf in H;
    cbn [Zod.format_default obind] in H;
    repeat match type of H with
           | obind ?m _ = Some _ =>
               let E := fresh "E" in
               destruct m eqn:E; cbn [obind] in H; [|discriminate H]
           end;
    injection H as <-; rewrite argv_shape; unfold documented_argv;
    cbn [token flags flat_map emit app]; eexists; reflexivity.
Qed.

Lemma default_format_on_command_line_witness :
  exists rest,
    argv (Search (lit "invoice") Format.markdown false false)
    = lit "find" :: lit "-o" :: lit "markdown" :: rest.
Proof.
  exact (proj2 (default_format_on_command_line
                  [("query"%string, JString (lit "invoice"))]
                  (Search (lit "invoice") Format.markdown false false) eq_refl)
           eq_refl).
Defined.

(** ** Commands the runtime refuses *)

Example utf8_two_bytes : utf8 [233]%N = [195; 169]%N.
Proof. reflexivity. Qed.

Example utf8_three_bytes : utf8 [8364]%N = [226; 130; 172]%N.
Proof. reflexivity. Qed.

Example utf8_surrogate_pair : utf8 [55357; 56832]%N = [240; 159; 152; 128]%N.
Proof. reflexivity. Qed.

Example utf8_lone_surrogate : utf8 [97; 55296; 98]%N = [97; 239; 191; 189; 98]%N.
Proof. reflexivity. Qed.

(** Every handler run starts exactly one process, whether the child
    then succeeds or fails; unless [execSync] refuses the command, in
    which case no process is started and the answer is the error
    envelope with the refusal's message. *)
Theorem handle_spawns_at_most_once (env : option str)
    (os : str -> exec_options -> exec_outcome) (c : call) (tr : trace) :
  exists r,
    handle env os c tr
    = (Ok r,
       match os (command_line env (argv c)) runHook_options with
       | Refused _ => tr
       | _ => tr ++ [Spawn (command_line env (argv c)) runHook_options]
       end) /\
    (forall m,
       os (command_line env (argv c)) runHook_options = Refused m ->
       r = Response [Text (lit "Error: " ++ m)] (Some true)).
Proof.
  destruct (handle_returns env os c tr) as [r Hr].
  rewrite runHook_trace in Hr. exists r. split; [exact Hr|].
  intros m Hm.
  pose proof (handle_catches env os c tr tr (PlainError m)
                (runHook_refused env os (argv c) tr m Hm)) as Hc.
  rewrite Hr in Hc. now injection Hc.
Qed.

Lemma handle_spawns_at_most_once_witness :
  exists r,
    handle None (fun _ _ => Refused (lit "refused")) (Link (lit "a")) []
      = (Ok r, []) /\
    r = Response [Text (lit "Error: refused")] (Some true).
Proof.
  destruct (handle_spawns_at_most_once None (fun _ _ => Refused (lit "refused"))
              (Link (lit "a")) []) as (r & Hrun & Hr).
  exists r. split; [exact Hrun | exact (Hr (lit "refused") eq_refl)].
Defined.

Lemma has_nul_app (a b : str) : has_nul (a ++ b) = has_nul a || has_nul b.
Proof. apply existsb_app. Qed.

Lemma has_nul_shellEscape (a : str) :
  has_nul a = true -> has_nul (shellEscape a) = true.
Proof.
  intro H. unfold shellEscape. rewrite !has_nul_app.
  assert (Hr : has_nul (replace_all SQUOTE (lit "'\''") a) = true).
  { induction a as [|x t IH]; [discriminate H|].
    cbn [replace_all]. rewrite has_nul_app.
    unfold has_nul in H. cbn [existsb] in H.
    apply orb_true_iff in H as [Hx | Ht].
    - apply N.eqb_eq in Hx. subst x. reflexivity.
    - rewrite (IH Ht). apply orb_true_r. }
  rewrite Hr. now rewrite orb_true_r.
Qed.

Lemma has_nul_join (a : str) (xs : list str) :
  In a xs -> has_nul a = true ->
  has_nul (join (lit " ") (map shellEscape xs)) = true.
Proof.
  intros Hin Ha. induction xs as [|x xs IH]; [destruct Hin|].
  destruct xs as [|y ys].
  - destruct Hin as [-> | []]. now apply has_nul_shellEscape.
  - change (join (lit " ") (map shellEscape (x :: y :: ys)))
      with (shellEscape x ++ lit " " ++ join (lit " ") (map shellEscape (y :: ys))).
    rewrite !has_nul_app. destruct Hin as [-> | Hin].
    + now rewrite (has_nul_shellEscape a Ha).
    + rewrite (IH Hin). now rewrite !orb_true_r.
Qed.

(** When an argument of the call, or the binary path, holds a NUL
    character, the command line holds it too: a runtime that refuses
    such commands starts no process, and the handler answers with the
    error envelope. *)
Theorem nul_argument_spawns_nothing (env : option str)
    (os : str -> exec_options -> exec_outcome) (c : call) (tr : trace) :
  checks_command os ->
  (exists a, In a (HOOK_CLI env :: argv c) /\ has_nul a = true) ->
  exists m,
    handle env os c tr
    = (Ok (Response [Text (lit "Error: " ++ m)] (Some true)), tr).
Proof.
  intros Hos (a & Hin & Ha).
  destruct (Hos (command_line env (argv c)) runHook_options
              (has_nul_join a _ Hin Ha)) as [m Hm].
  exists m.
  exact (handle_catches env os c tr tr (PlainError m)
           (runHook_refused env os (argv c) tr m Hm)).
Qed.

Lemma nul_argument_spawns_nothing_witness :
  exists m,
    handle None
      (fun cmd _ => if has_nul cmd then Refused (lit "null bytes") else Exited0 [])
      (Link [97; 0; 98]%N) []
    = (Ok (Response [Text (lit "Error: " ++ m)] (Some true)), []).
Proof.
  apply (nul_argument_spawns_nothing None
           (fun cmd _ => if has_nul cmd then Refused (lit "null bytes") else Exited0 [])
           (Link [97; 0; 98]%N) []).
  - intros cmd options H. rewrite H. now exists (lit "null bytes").
  - exists [97; 0; 98]%N. split; [right; right; now left | reflexivity].
Defined.
